(** * Container With Most Water, second highest salary, NaN comparison

    A shallow embedding of the algorithmic parts of the repository:

    - [maxAreaBruteForce], [maxArea] and [maxAreaAlternative]
      (the "Container With Most Water" script),
    - the [DISTINCT] based second-highest-salary query,
    - the three [NaN] comparisons of the equality-comparison script.

    The heights are integer Numbers and are modelled by [Z]; the arrays
    are [list Z]; an index is a [Z], as in the source, where
    [height.length - 1] is [-1] on the empty array.  A product of two
    Numbers is the binary64 product: the exact product rounded to 53
    significant bits, ties to even, and to [Infinity] on overflow
    ([number_mul]).  Loops are run by a fuel-bounded [while] combinator,
    together with a fuel-free big-step relation [while_runs] against
    which termination is stated. *)

From Stdlib Require Import String.
From Stdlib Require Import ZArith List Bool Lia Sorted.
From Stdlib Require Import Floats.
Import ListNotations.
Local Open Scope Z_scope.

(** ** Loops *)

Section While.
Context {St : Type}.
Variable cond : St -> bool.
Variable body : St -> St.

(** [while fuel s] runs [while (cond) body] from [s] for at most [fuel]
    iterations. *)
Fixpoint while (fuel : nat) (s : St) : St :=
  match fuel with
  | O => s
  | S fuel' => if cond s then while fuel' (body s) else s
  end.

(** Big-step runs of the loop: [while_runs s s'] holds when the loop
    started in [s] exits in [s']. *)
Inductive while_runs : St -> St -> Prop :=
| while_exit : forall s, cond s = false -> while_runs s s
| while_iter : forall s s',
    cond s = true -> while_runs (body s) s' -> while_runs s s'.

(** The states in which the loop started in [s0] evaluates its guard. *)
Inductive while_visits (s0 : St) : St -> Prop :=
| visits_first : while_visits s0 s0
| visits_next : forall s,
    while_visits s0 s -> cond s = true -> while_visits s0 (body s).

End While.

(** ** The height array *)

(** [get height i] is the read [height[i]].  Every read the functions
    perform is inside the array ([maxArea_reads_in_range],
    [maxAreaBruteForce_reads_in_range]), so the value chosen outside of it
    is never observed. *)
Definition get (height : list Z) (i : Z) : Z := nth (Z.to_nat i) height 0.

(** [height.length] *)
Definition len (height : list Z) : Z := Z.of_nat (length height).

(** The water held between the lines [i] and [j], in exact arithmetic:
    [(j - i) * min(height[i], height[j])]. *)
Definition pair_area (height : list Z) (i j : Z) : Z :=
  (j - i) * Z.min (get height i) (get height j).

(** ** Products of Numbers *)

(** The stand-in for [Infinity]: the least power of two above every
    finite Number. *)
Definition Infinity : Z := 2 ^ 1024.

(** A non-negative integer rounded to 53 significant bits, to the
    nearest, ties to the even significand. *)
Definition round_pos (x : Z) : Z :=
  let e := Z.log2 x - 52 in
  if e <=? 0 then x
  else
    let q := x / 2 ^ e in
    let r := x mod 2 ^ e in
    let half := 2 ^ (e - 1) in
    let q' :=
      if (half <? r) || ((r =? half) && Z.odd q) then q + 1 else q in
    q' * 2 ^ e.

(** The Number nearest to an integer: [round_pos] on the magnitude, and
    [Infinity] with the sign once the rounded magnitude reaches
    [2 ^ 1024]. *)
Definition round64 (x : Z) : Z :=
  let m := if 0 <=? x then round_pos x else - round_pos (- x) in
  if Infinity <=? m then Infinity
  else if m <=? - Infinity then - Infinity
  else m.

(** [x * y] on two integer Numbers. *)
Definition number_mul (x y : Z) : Z := round64 (x * y).

(** The area the functions compute for the lines [i] and [j]:
    [(j - i) * Math.min(height[i], height[j])] as a Number. *)
Definition computed_area (height : list Z) (i j : Z) : Z :=
  number_mul (j - i) (Z.min (get height i) (get height j)).


(** An integer as a binary64 value, and the binary64 product of two
    integers, for comparing [number_mul] with the floating-point unit. *)
Definition Z_to_float (z : Z) : float :=
  SF2Prim (binary_normalize prec emax z 0 false).

Definition binary64_mul (x y : Z) : spec_float :=
  Prim2SF (Z_to_float x * Z_to_float y)%float.

(** Products on which [number_mul] is compared with [binary64_mul]:
    exact ones, roundings down and up, ties, both signs, the last finite
    Number and overflows. *)
Definition product_samples : list (Z * Z) :=
  [ (7, 7); (3, 9007199254740991); (5, 9007199254740991);
    (3, 9007199254740992); (6, 9007199254740993 - 1);
    (4294967295, 9007199254740991); (4294967295, 4503599627370497);
    (3, 4503599627370497); (5, 4503599627370499); (7, 6004799503160661);
    (9, 6004799503160661); (11, 9007199254740989);
    (-3, 9007199254740991); (3, -9007199254740991);
    (-5, -9007199254740991); (1, 2 ^ 1023); (2, 2 ^ 1023);
    (1, 2 ^ 1024 - 2 ^ 971); (2, 2 ^ 1024 - 2 ^ 971);
    (3, 2 ^ 1022); (5, 2 ^ 1021 + 2 ^ 969); (-2, 2 ^ 1023);
    (4294967295, 2 ^ 1000 + 2 ^ 948); (0, 2 ^ 1023); (0, 0) ].

(** [m] is [0] or the area computed for some pair of lines of
    [height]. *)
Definition attained (height : list Z) (m : Z) : Prop :=
  m = 0 \/
  exists i j, 0 <= i /\ i < j /\ j < len height /\ m = computed_area height i j.

(** ** Two pointers: [maxArea] *)

Module TwoPointers.

(** The variables of [maxArea]; the argument [height] is part of the
    state, so that what the function does to it can be stated. *)
Record state : Type := mkState {
  st_height : list Z;
  st_maxArea : Z;
  st_left : Z;
  st_right : Z
}.

(** [let maxArea = 0; let left = 0; let right = height.length - 1;] *)
Definition init (height : list Z) : state :=
  {| st_height := height;
     st_maxArea := 0;
     st_left := 0;
     st_right := len height - 1 |}.

(** [left < right] *)
Definition guard (s : state) : bool := st_left s <? st_right s.

(** One iteration of the [while] loop. *)
Definition body (s : state) : state :=
  let height := st_height s in
  let width := st_right s - st_left s in
  let containerHeight :=
    Z.min (get height (st_left s)) (get height (st_right s)) in
  let area := number_mul width containerHeight in
  let maxArea := Z.max (st_maxArea s) area in
  if get height (st_left s) <? get height (st_right s)
  then {| st_height := height; st_maxArea := maxArea;
          st_left := st_left s + 1; st_right := st_right s |}
  else {| st_height := height; st_maxArea := maxArea;
          st_left := st_left s; st_right := st_right s - 1 |}.

(** The state in which [maxArea(height)] returns.  The loop runs at most
    [height.length] times ([run_exits]). *)
Definition run (height : list Z) : state :=
  while guard body (length height) (init height).

(** The loop invariant: the pointers stay inside the array, and the
    area computed for a pair of lines is either that of a pair still
    between the pointers or already accounted for in [maxArea]. *)
Record invariant (height : list Z) (s : state) : Prop := mkInv {
  inv_height : st_height s = height;
  inv_left : 0 <= st_left s;
  inv_right : st_right s <= len height - 1;
  inv_order : height <> [] -> st_left s <= st_right s;
  inv_maxArea : 0 <= st_maxArea s;
  inv_attained : attained height (st_maxArea s);
  inv_covered : forall i j, 0 <= i -> i < j -> j < len height ->
      (st_left s <= i /\ j <= st_right s) \/
      computed_area height i j <= st_maxArea s
}.

(** The distance between the pointers, the loop's variant. *)
Definition gap (s : state) : nat := Z.to_nat (st_right s - st_left s).

End TwoPointers.

(** [function maxArea(height)] *)
Definition maxArea (height : list Z) : Z :=
  TwoPointers.st_maxArea (TwoPointers.run height).

(** ** Brute force: [maxAreaBruteForce] *)

Module BruteForce.

(** Variables of the inner loop [for (let j = i + 1; j < n; j++)]. *)
Record inner_state : Type := mkInner { in_j : Z; in_maxArea : Z }.

Definition inner_guard (n : Z) (s : inner_state) : bool := in_j s <? n.

Definition inner_body (height : list Z) (i : Z) (s : inner_state)
  : inner_state :=
  let j := in_j s in
  let width := j - i in
  let containerHeight := Z.min (get height i) (get height j) in
  let area := number_mul width containerHeight in
  {| in_j := j + 1; in_maxArea := Z.max (in_maxArea s) area |}.

(** The inner loop, entered with the running maximum [maxArea]; it
    exits within [height.length] iterations ([inner_loop_exits]). *)
Definition inner_run (height : list Z) (n i maxArea : Z) : inner_state :=
  while (inner_guard n) (inner_body height i) (length height)
    {| in_j := i + 1; in_maxArea := maxArea |}.

Definition inner_loop (height : list Z) (n i maxArea : Z) : Z :=
  in_maxArea (inner_run height n i maxArea).

(** Variables of the outer loop [for (let i = 0; i < n; i++)]. *)
Record outer_state : Type := mkOuter { out_i : Z; out_maxArea : Z }.

Definition outer_guard (n : Z) (s : outer_state) : bool := out_i s <? n.

Definition outer_body (height : list Z) (n : Z) (s : outer_state)
  : outer_state :=
  {| out_i := out_i s + 1;
     out_maxArea := inner_loop height n (out_i s) (out_maxArea s) |}.

(** The outer loop; it exits within [height.length] iterations
    ([maxAreaBruteForce_exits]). *)
Definition run (height : list Z) : outer_state :=
  let n := len height in
  while (outer_guard n) (outer_body height n) (length height)
    {| out_i := 0; out_maxArea := 0 |}.

(** Invariant of the inner loop for the line [i], entered with the
    running maximum [m0]: the pairs [(i, j)] below the current [j] are
    accounted for. *)
Definition inner_invariant (height : list Z) (i m0 : Z) (s : inner_state)
  : Prop :=
  i < in_j s /\
  m0 <= in_maxArea s /\
  (forall j, i < j -> j < in_j s -> j < len height ->
     computed_area height i j <= in_maxArea s) /\
  (in_maxArea s = m0 \/
   exists j, i < j /\ j < len height /\ in_maxArea s = computed_area height i j).

(** Invariant of the outer loop: the pairs whose first line is below the
    current [i] are accounted for. *)
Definition outer_invariant (height : list Z) (s : outer_state) : Prop :=
  0 <= out_i s /\
  0 <= out_maxArea s /\
  (forall i j, 0 <= i -> i < out_i s -> i < j -> j < len height ->
     computed_area height i j <= out_maxArea s) /\
  attained height (out_maxArea s).

End BruteForce.

(** [function maxAreaBruteForce(height)] *)
Definition maxAreaBruteForce (height : list Z) : Z :=
  BruteForce.out_maxArea (BruteForce.run height).

(** ** The [for] loop variant: [maxAreaAlternative] *)

Module Alternative.

(** The variables of [for (let i = 0, j = height.length - 1; i < j;)]. *)
Record state : Type := mkState { st_maxArea : Z; st_i : Z; st_j : Z }.

Definition init (height : list Z) : state :=
  {| st_maxArea := 0; st_i := 0; st_j := len height - 1 |}.

Definition guard (s : state) : bool := st_i s <? st_j s.

Definition body (height : list Z) (s : state) : state :=
  let i := st_i s in
  let j := st_j s in
  let area := number_mul (j - i) (Z.min (get height i) (get height j)) in
  let maxArea := Z.max (st_maxArea s) area in
  if get height i <? get height j
  then {| st_maxArea := maxArea; st_i := i + 1; st_j := j |}
  else {| st_maxArea := maxArea; st_i := i; st_j := j - 1 |}.

(** The state in which [maxAreaAlternative(height)] returns
    ([maxAreaAlternative_exits]). *)
Definition run (height : list Z) : state :=
  while guard (body height) (length height) (init height).

End Alternative.

(** [function maxAreaAlternative(height)] *)
Definition maxAreaAlternative (height : list Z) : Z :=
  Alternative.st_maxArea (Alternative.run height).

(** ** What the specification asks of the result *)



(** All heights are non-negative. *)
Definition nonneg (height : list Z) : Prop := Forall (fun x => 0 <= x) height.

(** ** The second-highest-salary query *)

Module Sql.

(** The [Employee] table is given by its [salary] column, one entry per
    row; the result of the scalar subquery is [None] for SQL's [NULL]. *)
Definition table : Type := list Z.

(** [SELECT DISTINCT salary] *)
Definition distinct (rows : table) : table := nodup Z.eq_dec rows.

Fixpoint insert_desc (x : Z) (rows : table) : table :=
  match rows with
  | [] => [x]
  | y :: rest => if y <? x then x :: rows else y :: insert_desc x rest
  end.

(** Descending order, ties allowed. *)
Definition descending (rows : table) : Prop :=
  StronglySorted (fun a b : Z => b <= a) rows.

(** [ORDER BY salary DESC] *)
Definition order_by_desc (rows : table) : table :=
  fold_right insert_desc [] rows.

(** [OFFSET k] and [LIMIT k] *)
Definition offset (k : nat) (rows : table) : table := skipn k rows.
Definition limit (k : nat) (rows : table) : table := firstn k rows.

(** A subquery used as a scalar: its only row, or [NULL] without one. *)
Definition scalar (rows : table) : option Z :=
  match rows with
  | [] => None
  | v :: _ => Some v
  end.

(** [SELECT (SELECT DISTINCT salary FROM Employee ORDER BY salary DESC
    LIMIT 1 OFFSET 1) AS SecondHighestSalary] *)
Definition SecondHighestSalary (Employee : table) : option Z :=
  scalar (limit 1 (offset 1 (order_by_desc (distinct Employee)))).

(** [v] is the second-largest distinct salary of the table: some salary
    [top] is above it, and every salary is [top] or at most [v]. *)
Definition second_largest (Employee : table) (v : Z) : Prop :=
  In v Employee /\
  exists top, In top Employee /\ v < top /\
    forall x, In x Employee -> x = top \/ x <= v.

(** The table has at least two distinct salary values. *)
Definition two_distinct (Employee : table) : Prop :=
  exists x y, In x Employee /\ In y Employee /\ x <> y.

End Sql.

(** ** [NaN] under [==], [===] and [Object.is] *)

Module Equality.

(** A JavaScript Number is an IEEE 754 binary64 value. *)
Definition number : Type := float.

Definition NaN : number := PrimFloat.nan.

(** [x === y] on two Numbers ([Number::equal]): IEEE equality. *)
Definition strict_equals (x y : number) : bool := PrimFloat.eqb x y.

(** [x == y]: the operands have the same type, so this is [x === y]. *)
Definition loose_equals (x y : number) : bool := strict_equals x y.

(** [Object.is(x, y)] on two Numbers ([Number::sameValue]). *)
Definition Object_is (x y : number) : bool :=
  if is_nan x && is_nan y then true
  else if is_zero x && is_zero y then Bool.eqb (get_sign x) (get_sign y)
  else PrimFloat.eqb x y.

End Equality.

(** ** The logging variant: [maxAreaWithSteps] *)

Module WithSteps.

(** [height[i]] as a template literal prints it: the number, or
    [undefined] ([None]) outside the array. *)
Definition read (height : list Z) (i : Z) : option Z :=
  if (0 <=? i) && (i <? len height) then Some (get height i) else None.

(** What one iteration prints: the step number, both indices with their
    heights, the width, the container height, the area, the maximum so
    far and which pointer moves. *)
Record step_line : Type := mkStep {
  lg_step : Z;
  lg_left : Z;
  lg_heightLeft : Z;
  lg_right : Z;
  lg_heightRight : Z;
  lg_width : Z;
  lg_containerHeight : Z;
  lg_area : Z;
  lg_maxSoFar : Z;
  lg_moveLeft : bool
}.

(** The console output: the [Initial:] line, then one group of lines per
    iteration. *)
Inductive line : Type :=
| Initial (left : Z) (heightLeft : option Z)
          (right : Z) (heightRight : option Z)
| Step (l : step_line).

Record state : Type := mkState {
  st_maxArea : Z;
  st_left : Z;
  st_right : Z;
  st_step : Z;
  st_out : list line
}.

Definition init (height : list Z) : state :=
  let left := 0 in
  let right := len height - 1 in
  {| st_maxArea := 0; st_left := left; st_right := right; st_step := 1;
     st_out := [Initial left (read height left) right (read height right)] |}.

Definition guard (s : state) : bool := st_left s <? st_right s.

Definition body (height : list Z) (s : state) : state :=
  let left := st_left s in
  let right := st_right s in
  let width := right - left in
  let containerHeight := Z.min (get height left) (get height right) in
  let area := number_mul width containerHeight in
  let printed :=
    Step {| lg_step := st_step s;
            lg_left := left; lg_heightLeft := get height left;
            lg_right := right; lg_heightRight := get height right;
            lg_width := width; lg_containerHeight := containerHeight;
            lg_area := area; lg_maxSoFar := Z.max (st_maxArea s) area;
            lg_moveLeft := get height left <? get height right |} in
  let maxArea := Z.max (st_maxArea s) area in
  if get height left <? get height right
  then {| st_maxArea := maxArea; st_left := left + 1; st_right := right;
          st_step := st_step s + 1; st_out := st_out s ++ [printed] |}
  else {| st_maxArea := maxArea; st_left := left; st_right := right - 1;
          st_step := st_step s + 1; st_out := st_out s ++ [printed] |}.

Definition run (height : list Z) : state :=
  while guard (body height) (length height) (init height).

(** The step groups of an output, in the order printed. *)
Fixpoint steps (out : list line) : list step_line :=
  match out with
  | [] => []
  | Initial _ _ _ _ :: rest => steps rest
  | Step l :: rest => l :: steps rest
  end.

(** What relates the logging loop to the loop of [maxArea], and what its
    output holds so far. *)
Definition matches (height : list Z) (s : state) (t : TwoPointers.state)
  : Prop :=
  TwoPointers.st_height t = height /\
  st_maxArea s = TwoPointers.st_maxArea t /\
  st_left s = TwoPointers.st_left t /\
  st_right s = TwoPointers.st_right t.

Definition counted (height : list Z) (s : state) : Prop :=
  st_step s = Z.of_nat (length (steps (st_out s))) + 1 /\
  map lg_step (steps (st_out s)) =
    map Z.of_nat (seq 1 (length (steps (st_out s)))) /\
  0 <= st_left s /\ st_right s <= len height - 1 /\
  (height <> [] -> st_left s <= st_right s) /\
  (height <> [] ->
     Z.of_nat (length (steps (st_out s))) + (st_right s - st_left s) =
     len height - 1) /\
  (forall l, In l (steps (st_out s)) ->
     0 <= lg_left l /\ lg_left l < lg_right l /\ lg_right l < len height /\
     lg_area l = computed_area height (lg_left l) (lg_right l) /\
     lg_area l <= lg_maxSoFar l /\ lg_maxSoFar l <= st_maxArea s).

End WithSteps.

(** [function maxAreaWithSteps(height)]: the console output and the
    value returned. *)
Definition maxAreaWithSteps (height : list Z) : list WithSteps.line * Z :=
  (WithSteps.st_out (WithSteps.run height),
   WithSteps.st_maxArea (WithSteps.run height)).

(** ** The script's test table *)

Module Tests.

Record testCase : Type := mkTest { input : list Z; expected : Z }.

Definition testCases : list testCase :=
  [ {| input := [1; 8; 6; 2; 5; 4; 8; 3; 7]; expected := 49 |};
    {| input := [1; 1]; expected := 1 |};
    {| input := [1; 2; 1]; expected := 2 |};
    {| input := [4; 3; 2; 1; 4]; expected := 16 |};
    {| input := [1; 2; 4; 3]; expected := 4 |} ].

(** [const passed = result === testCase.expected] *)
Definition passed (testCase : testCase) : bool :=
  let result := maxArea (input testCase) in
  result =? expected testCase.

(** The five edge cases with the results their comments announce. *)
Definition edgeCases : list testCase :=
  [ {| input := [1; 1]; expected := 1 |};
    {| input := [5; 5; 5; 5]; expected := 15 |};
    {| input := [1; 2; 3; 4; 5]; expected := 6 |};
    {| input := [5; 4; 3; 2; 1]; expected := 6 |};
    {| input := [1; 2; 1]; expected := 2 |} ].

End Tests.

(** ** The other second-highest-salary queries *)

Module SqlVariants.
Import Sql.

(** The original query, without [DISTINCT]:
    [SELECT (SELECT salary FROM Employee ORDER BY salary DESC
    LIMIT 1 OFFSET 1) AS SecondHighestSalary] *)
Definition OriginalQuery (Employee : table) : option Z :=
  scalar (limit 1 (offset 1 (order_by_desc Employee))).

(** [MAX(salary)]: [NULL] over no rows. *)
Definition max_agg (rows : table) : option Z :=
  match rows with
  | [] => None
  | x :: rest => Some (fold_left Z.max rest x)
  end.

(** Solution 3: [SELECT MAX(salary) FROM Employee
    WHERE salary < (SELECT MAX(salary) FROM Employee)].  A comparison
    with [NULL] keeps no row. *)
Definition Solution3 (Employee : table) : option Z :=
  match max_agg Employee with
  | None => max_agg []
  | Some top => max_agg (filter (fun salary => salary <? top) Employee)
  end.

(** [DENSE_RANK() OVER (ORDER BY salary DESC)] of a row: one more than
    the number of distinct salaries above it. *)
Definition dense_rank (Employee : table) (salary : Z) : Z :=
  1 + Z.of_nat
        (length (distinct (filter (fun other => salary <? other) Employee))).

(** The rows of Solution 2 that pass [WHERE rnk = 2]. *)
Definition rank2_rows (Employee : table) : list (Z * Z) :=
  filter (fun row => snd row =? 2)
    (map (fun salary => (salary, dense_rank Employee salary)) Employee).

(** Solution 2: [SELECT salary FROM (SELECT salary, DENSE_RANK() OVER
    (ORDER BY salary DESC) AS rnk FROM Employee) ranked
    WHERE rnk = 2 LIMIT 1] *)
Definition Solution2 (Employee : table) : option Z :=
  scalar (limit 1 (map fst (rank2_rows Employee))).

Definition row_eq_dec : forall r1 r2 : Z * nat, {r1 = r2} + {r1 <> r2}.
Proof. decide equality; [apply Nat.eq_dec|apply Z.eq_dec]. Defined.

(** [SELECT DISTINCT salary, ROW_NUMBER() OVER (ORDER BY salary DESC) AS
    rn FROM Employee]: the rows are numbered in descending order of
    salary, and [DISTINCT] then applies to the pairs [(salary, rn)]. *)
Definition numbered_rows (Employee : table) : list (Z * nat) :=
  let ordered := order_by_desc Employee in
  nodup row_eq_dec (combine ordered (seq 1 (length ordered))).

(** Solution 4: [SELECT salary FROM (...) ranked WHERE rn = 2] *)
Definition Solution4 (Employee : table) : option Z :=
  scalar (map fst (filter (fun row => Nat.eqb (snd row) 2)
                     (numbered_rows Employee))).

(** The highest salary of the table is held by at least two rows. *)
Definition top_duplicated (Employee : table) : Prop :=
  exists top,
    (forall x, In x Employee -> x <= top) /\
    (2 <= count_occ Z.eq_dec Employee top)%nat.

End SqlVariants.

(** ** Signed zeros and [NaN] checks *)

Module SignedZero.
Import Equality.

(** [function getDirection(value)] *)
Definition getDirection (value : number) : string :=
  if Object_is value neg_zero then "negative direction"%string
  else if Object_is value zero then "positive direction"%string
  else "non-zero"%string.

(** [result === NaN], the check the script calls wrong *)
Definition wrong_NaN_check (result : number) : bool :=
  strict_equals result NaN.

(** [Object.is(result, NaN)] *)
Definition Object_is_NaN_check (result : number) : bool :=
  Object_is result NaN.

End SignedZero.

(** * Properties *)

(** ** Loop rules *)

Section WhileFacts.
Context {St : Type}.
Variable cond : St -> bool.
Variable body : St -> St.

Lemma while_runs_exit :
  forall s s', while_runs cond body s s' -> cond s' = false.
Proof. induction 1; assumption. Qed.

Lemma while_runs_det :
  forall s s1, while_runs cond body s s1 ->
  forall s2, while_runs cond body s s2 -> s1 = s2.
Proof.
  induction 1 as [s Hc | s s1 Hc _ IH]; intros s2 H2; inversion H2; subst;
    try congruence.
  now apply IH.
Qed.

Lemma while_runs_visits :
  forall s s', while_runs cond body s s' -> while_visits cond body s s'.
Proof.
  intros s s' H.
  enough (G : forall s0, while_visits cond body s0 s ->
                         while_visits cond body s0 s')
    by (apply G; constructor).
  induction H as [s Hc | s s' Hc _ IH]; intros s0 Hv; [exact Hv|].
  apply IH. now constructor.
Qed.

Section Invariant.
Variable Inv : St -> Prop.
Hypothesis Inv_body : forall s, Inv s -> cond s = true -> Inv (body s).

Lemma while_visits_inv :
  forall s0 s, Inv s0 -> while_visits cond body s0 s -> Inv s.
Proof. intros s0 s H0; induction 1; auto. Qed.

Lemma while_inv : forall fuel s, Inv s -> Inv (while cond body fuel s).
Proof.
  induction fuel as [|fuel IH]; intros s Hs; simpl; [exact Hs|].
  destruct (cond s) eqn:Hc; auto.
Qed.

(** A variant that decreases under the invariant bounds the number of
    iterations: with that much fuel the loop has exited. *)
Variable variant : St -> nat.
Hypothesis variant_body :
  forall s, Inv s -> cond s = true -> (variant (body s) < variant s)%nat.

Lemma while_enough_fuel :
  forall fuel s, Inv s -> (variant s <= fuel)%nat ->
    while_runs cond body s (while cond body fuel s).
Proof.
  induction fuel as [|fuel IH]; intros s Hs Hv; simpl.
  - destruct (cond s) eqn:Hc; [|now constructor].
    specialize (variant_body s Hs Hc). lia.
  - destruct (cond s) eqn:Hc; [|now constructor].
    apply while_iter; [exact Hc|].
    apply IH; [auto|]. specialize (variant_body s Hs Hc). lia.
Qed.

Lemma while_total :
  forall fuel s, Inv s -> (variant s <= fuel)%nat ->
    Inv (while cond body fuel s) /\ cond (while cond body fuel s) = false.
Proof.
  intros fuel s Hs Hv. split; [now apply while_inv|].
  eapply while_runs_exit, while_enough_fuel; eassumption.
Qed.

End Invariant.
End WhileFacts.

(** Two loops whose guards and bodies agree on related states stay
    related. *)
Lemma while_simulation {A B : Type} (R : A -> B -> Prop)
    (condA : A -> bool) (bodyA : A -> A) (condB : B -> bool) (bodyB : B -> B) :
  (forall a b, R a b -> condA a = condB b) ->
  (forall a b, R a b -> condA a = true -> R (bodyA a) (bodyB b)) ->
  forall fuel a b, R a b ->
    R (while condA bodyA fuel a) (while condB bodyB fuel b).
Proof.
  intros Hc Hb.
  induction fuel as [|fuel IH]; intros a b Hab; simpl; [exact Hab|].
  rewrite <- (Hc a b Hab). destruct (condA a) eqn:E; auto.
Qed.

(** ** Products of Numbers *)

Module NumberFacts.

Lemma Infinity_large : 9007199254740992 < Infinity.
Proof.
  unfold Infinity. change 9007199254740992 with (2 ^ 53).
  apply Z.pow_lt_mono_r; lia.
Qed.

Lemma round_pos_small :
  forall x, 0 <= x -> x < 9007199254740992 -> round_pos x = x.
Proof.
  intros x H0 H. unfold round_pos.
  assert (Z.log2 x <= 52).
  { destruct (Z.eq_dec x 0) as [->|Hne]; [simpl; lia|].
    assert (Z.log2 x < 53); [|lia].
    apply Z.log2_lt_pow2; [lia|]. exact H. }
  destruct (Z.leb_spec (Z.log2 x - 52) 0); [reflexivity|lia].
Qed.

(** An integer above [2 ^ 53] between the two Numbers around it. *)
Lemma round_pos_cases :
  forall x, 0 < x -> 0 < Z.log2 x - 52 ->
    let e := Z.log2 x - 52 in
    let q := x / 2 ^ e in
    let r := x mod 2 ^ e in
    x = q * 2 ^ e + r /\ 0 <= r < 2 ^ e /\
    2 ^ 52 <= q /\ q < 2 ^ 53 /\ 0 < 2 ^ e /\
    2 ^ Z.log2 x = 2 ^ 52 * 2 ^ e /\
    (round_pos x = q * 2 ^ e \/ round_pos x = (q + 1) * 2 ^ e).
Proof.
  intros x Hx He e q r.
  assert (Hp : 0 < 2 ^ e) by (apply Z.pow_pos_nonneg; lia).
  assert (Hsplit : 2 ^ Z.log2 x = 2 ^ 52 * 2 ^ e).
  { rewrite <- Z.pow_add_r by (unfold e; lia). f_equal. unfold e. lia. }
  assert (Hsplit' : 2 ^ Z.succ (Z.log2 x) = 2 ^ 53 * 2 ^ e).
  { rewrite <- Z.pow_add_r by (unfold e; lia). f_equal. unfold e. lia. }
  destruct (Z.log2_spec x Hx) as [Hlo Hhi].
  rewrite Hsplit in Hlo. rewrite Hsplit' in Hhi.
  pose proof (Z.div_mod x (2 ^ e) ltac:(lia)) as Hdm.
  pose proof (Z.mod_pos_bound x (2 ^ e) Hp) as Hr.
  fold q r in Hdm, Hr.
  assert (Hq1 : 2 ^ 52 <= q) by (unfold q; apply Z.div_le_lower_bound; lia).
  assert (Hq2 : q < 2 ^ 53) by (unfold q; apply Z.div_lt_upper_bound; lia).
  repeat split; try lia.
  unfold round_pos. fold e. destruct (Z.leb_spec e 0); [lia|].
  fold q r.
  destruct ((2 ^ (e - 1) <? r) || ((r =? 2 ^ (e - 1)) && Z.odd q)); [right|left]; reflexivity.
Qed.

Lemma round_pos_bounds :
  forall x, 0 < x -> 2 ^ Z.log2 x <= round_pos x <= 2 ^ (Z.log2 x + 1).
Proof.
  intros x Hx.
  destruct (Z.log2_spec x Hx) as [Hlo Hhi].
  destruct (Z.leb_spec (Z.log2 x - 52) 0) as [He|He].
  - unfold round_pos. destruct (Z.leb_spec (Z.log2 x - 52) 0); [|lia].
    unfold Z.succ in Hhi. lia.
  - destruct (round_pos_cases x Hx He) as (Hdm & Hr & Hq1 & Hq2 & Hp & Hs & Hc).
    assert (Hs' : 2 ^ (Z.log2 x + 1) = 2 ^ 53 * 2 ^ (Z.log2 x - 52)).
    { rewrite <- Z.pow_add_r by lia. f_equal. lia. }
    rewrite Hs, Hs'. destruct Hc as [-> | ->]; nia.
Qed.

Lemma round_pos_mono :
  forall x y, 0 <= x -> x <= y -> round_pos x <= round_pos y.
Proof.
  intros x y Hx Hxy.
  destruct (Z.eq_dec x 0) as [->|Hx0].
  { change (round_pos 0) with 0. destruct (Z.eq_dec y 0) as [->|Hy0]; [reflexivity|].
    pose proof (round_pos_bounds y ltac:(lia)).
    assert (0 < 2 ^ Z.log2 y) by (apply Z.pow_pos_nonneg; [lia|apply Z.log2_nonneg]). lia. }
  assert (Hx' : 0 < x) by lia. assert (Hy' : 0 < y) by lia.
  pose proof (Z.log2_le_mono x y Hxy) as Hl.
  destruct (Z.eq_dec (Z.log2 x) (Z.log2 y)) as [El|Nl].
  - destruct (Z.leb_spec (Z.log2 x - 52) 0) as [He|He].
    + unfold round_pos. rewrite <- El.
      destruct (Z.leb_spec (Z.log2 x - 52) 0); [exact Hxy|lia].
    + pose proof (round_pos_cases x Hx' He) as Cx.
      pose proof (round_pos_cases y Hy' ltac:(lia)) as Cy.
      rewrite <- El in Cy. cbv zeta in Cx, Cy.
      set (e := Z.log2 x - 52) in *.
      destruct Cx as (Dx & Rx & _ & _ & Hp & _ & _).
      destruct Cy as (Dy & Ry & _ & _ & _ & _ & _).
      assert (Hq : x / 2 ^ e <= y / 2 ^ e) by (apply Z.div_le_mono; lia).
      unfold round_pos. rewrite <- El. fold e.
      destruct (Z.leb_spec e 0); [lia|].
      set (qx := x / 2 ^ e) in *. set (qy := y / 2 ^ e) in *.
      set (rx := x mod 2 ^ e) in *. set (ry := y mod 2 ^ e) in *.
      set (half := 2 ^ (e - 1)).
      destruct (Z.eq_dec qx qy) as [Eq|Nq].
      * rewrite <- Eq in *.
        assert (Hr : rx <= ry) by lia.
        destruct ((half <? rx) || ((rx =? half) && Z.odd qx)) eqn:Ux.
        -- assert (Uy : (half <? ry) || ((ry =? half) && Z.odd qx) = true).
           { apply orb_true_iff in Ux. apply orb_true_iff.
             destruct Ux as [Ux|Ux].
             - left. apply Z.ltb_lt in Ux. apply Z.ltb_lt. lia.
             - apply andb_true_iff in Ux. destruct Ux as [Ux Uo].
               apply Z.eqb_eq in Ux.
               destruct (Z.eq_dec ry half) as [E|N].
               + right. apply andb_true_iff. split; [now apply Z.eqb_eq|exact Uo].
               + left. apply Z.ltb_lt. lia. }
           rewrite Uy. lia.
        -- destruct ((half <? ry) || ((ry =? half) && Z.odd qx)); nia.
      * assert (qx + 1 <= qy) by lia.
        destruct ((half <? rx) || ((rx =? half) && Z.odd qx));
        destruct ((half <? ry) || ((ry =? half) && Z.odd qy)); nia.
  - pose proof (round_pos_bounds x Hx') as [_ Bx].
    pose proof (round_pos_bounds y Hy') as [By _].
    assert (2 ^ (Z.log2 x + 1) <= 2 ^ Z.log2 y).
    { apply Z.pow_le_mono_r; lia. }
    lia.
Qed.

Lemma round_pos_nonneg : forall x, 0 <= x -> 0 <= round_pos x.
Proof. intros x Hx. change 0 with (round_pos 0) at 1. apply round_pos_mono; lia. Qed.

Lemma round64_mono : forall x y, x <= y -> round64 x <= round64 y.
Proof.
  intros x y Hxy. unfold round64.
  assert (Hi : 0 < Infinity) by (pose proof Infinity_large; lia).
  set (mx := if 0 <=? x then round_pos x else - round_pos (- x)).
  set (my := if 0 <=? y then round_pos y else - round_pos (- y)).
  assert (Hm : mx <= my).
  { unfold mx, my. destruct (Z.leb_spec 0 x), (Z.leb_spec 0 y); try lia.
    - now apply round_pos_mono.
    - pose proof (round_pos_nonneg (- x) ltac:(lia)).
      pose proof (round_pos_nonneg y ltac:(lia)). lia.
    - pose proof (round_pos_mono (- y) (- x) ltac:(lia) ltac:(lia)). lia. }
  generalize dependent Infinity. intros I HI.
  destruct (Z.leb_spec I mx), (Z.leb_spec I my), (Z.leb_spec mx (- I)), (Z.leb_spec my (- I)); lia.
Qed.

Lemma round64_exact :
  forall x, Z.abs x <= 9007199254740992 -> round64 x = x.
Proof.
  intros x Hx. unfold round64.
  assert (Hp : forall z, 0 <= z -> z <= 9007199254740992 -> round_pos z = z).
  { intros z H0 H. destruct (Z.eq_dec z 9007199254740992) as [->|N]; [vm_compute; reflexivity|].
    apply round_pos_small; lia. }
  pose proof Infinity_large as HI.
  destruct (Z.leb_spec 0 x).
  - rewrite Hp by lia.
    destruct (Z.leb_spec Infinity x), (Z.leb_spec x (- Infinity)); lia.
  - rewrite Hp by lia. replace (- - x) with x by lia.
    destruct (Z.leb_spec Infinity x), (Z.leb_spec x (- Infinity)); lia.
Qed.

Lemma round64_0 : round64 0 = 0.
Proof. apply round64_exact. simpl. lia. Qed.

Lemma round64_max :
  forall x y, round64 (Z.max x y) = Z.max (round64 x) (round64 y).
Proof.
  intros x y. destruct (Z.le_ge_cases x y) as [H|H].
  - pose proof (round64_mono x y H). rewrite !Z.max_r by lia. reflexivity.
  - pose proof (round64_mono y x H). rewrite !Z.max_l by lia. reflexivity.
Qed.

Lemma round64_nonneg : forall x, 0 <= x -> 0 <= round64 x.
Proof.
  intros x H. rewrite <- round64_0 at 1. now apply round64_mono.
Qed.

(** A product that stays within [2 ^ 53] in magnitude is exact. *)
Lemma number_mul_exact :
  forall x y, Z.abs (x * y) <= 9007199254740992 -> number_mul x y = x * y.
Proof. intros x y H. unfold number_mul. now apply round64_exact. Qed.

(** On the samples [number_mul] is the product of the floating-point
    unit, bit for bit; [3 * (2 ^ 53 - 1)] rounds down by one, and
    [2 * 2 ^ 1023] overflows. *)
Lemma number_mul_binary64_samples :
  Forall
    (fun p => Prim2SF (Z_to_float (number_mul (fst p) (snd p))) =
              binary64_mul (fst p) (snd p))
    product_samples /\
  number_mul 3 9007199254740991 = 27021597764222972 /\
  number_mul 2 (2 ^ 1023) = Infinity.
Proof.
  split; [|split; vm_compute; reflexivity].
  unfold product_samples.
  repeat (apply Forall_cons; [vm_compute; reflexivity|]). apply Forall_nil.
Qed.

End NumberFacts.

(** ** Areas *)

Lemma get_nonneg : forall height i, nonneg height -> 0 <= get height i.
Proof.
  intros height i H. unfold get.
  destruct (Nat.lt_ge_cases (Z.to_nat i) (length height)) as [Hlt|Hge].
  - unfold nonneg in H. rewrite Forall_forall in H. apply H, nth_In, Hlt.
  - rewrite nth_overflow by exact Hge. lia.
Qed.

Lemma pair_area_nonneg :
  forall height i j, nonneg height -> i < j -> 0 <= pair_area height i j.
Proof.
  intros height i j H Hij. unfold pair_area.
  pose proof (get_nonneg height i H). pose proof (get_nonneg height j H).
  apply Z.mul_nonneg_nonneg; lia.
Qed.

(** Keeping the shorter line [l] and pulling the other end inwards gives
    no more than the pair [(l, r)], or nothing at all. *)
Lemma area_keep_left :
  forall height l j r,
    l < j -> j <= r -> get height l <= get height r ->
    pair_area height l j <= Z.max 0 (pair_area height l r).
Proof.
  intros height l j r Hlj Hjr Hh. unfold pair_area.
  set (a := get height l) in *. set (b := get height j).
  set (c := get height r) in *.
  rewrite (Z.min_l a c) by exact Hh.
  assert (Hm : (j - l) * Z.min a b <= (j - l) * a)
    by (apply Z.mul_le_mono_nonneg_l; lia).
  destruct (Z.lt_ge_cases a 0) as [Ha|Ha].
  - assert ((j - l) * a <= 0) by nia. lia.
  - assert ((j - l) * a <= (r - l) * a) by (apply Z.mul_le_mono_nonneg_r; lia).
    lia.
Qed.

Lemma area_keep_right :
  forall height l i r,
    l <= i -> i < r -> get height r <= get height l ->
    pair_area height i r <= Z.max 0 (pair_area height l r).
Proof.
  intros height l i r Hli Hir Hh. unfold pair_area.
  set (a := get height l) in *. set (b := get height i).
  set (c := get height r) in *.
  rewrite (Z.min_r a c) by exact Hh.
  assert (Hm : (r - i) * Z.min b c <= (r - i) * c)
    by (apply Z.mul_le_mono_nonneg_l; lia).
  destruct (Z.lt_ge_cases c 0) as [Hc|Hc].
  - assert ((r - i) * c <= 0) by nia. lia.
  - assert ((r - i) * c <= (r - l) * c) by (apply Z.mul_le_mono_nonneg_r; lia).
    lia.
Qed.

Lemma computed_area_round :
  forall height i j,
    computed_area height i j = round64 (pair_area height i j).
Proof. reflexivity. Qed.

Lemma computed_area_exact :
  forall height i j,
    Z.abs (pair_area height i j) <= 9007199254740992 ->
    computed_area height i j = pair_area height i j.
Proof.
  intros height i j H. rewrite computed_area_round.
  now apply NumberFacts.round64_exact.
Qed.

(** Rounding keeps the order of the areas, so the two bounds hold of the
    computed areas too. *)
Lemma computed_keep_left :
  forall height l j r,
    l < j -> j <= r -> get height l <= get height r ->
    computed_area height l j <= Z.max 0 (computed_area height l r).
Proof.
  intros height l j r Hlj Hjr Hh. rewrite !computed_area_round.
  rewrite <- NumberFacts.round64_0 at 1. rewrite <- NumberFacts.round64_max.
  apply NumberFacts.round64_mono. now apply area_keep_left.
Qed.

Lemma computed_keep_right :
  forall height l i r,
    l <= i -> i < r -> get height r <= get height l ->
    computed_area height i r <= Z.max 0 (computed_area height l r).
Proof.
  intros height l i r Hli Hir Hh. rewrite !computed_area_round.
  rewrite <- NumberFacts.round64_0 at 1. rewrite <- NumberFacts.round64_max.
  apply NumberFacts.round64_mono. now apply area_keep_right.
Qed.

(** ** The two-pointer loop *)

Module TwoPointersFacts.
Import TwoPointers.

Lemma guard_true : forall s, guard s = true <-> st_left s < st_right s.
Proof. intros s. unfold guard. apply Z.ltb_lt. Qed.

Lemma guard_false : forall s, guard s = false <-> st_right s <= st_left s.
Proof. intros s. unfold guard. rewrite Z.ltb_ge. reflexivity. Qed.

Lemma invariant_init : forall height, invariant height (init height).
Proof.
  intros height. constructor; simpl; try reflexivity; try lia.
  - intros Hne. unfold len. destruct height; [congruence|simpl length; lia].
  - now left.
Qed.

Lemma body_cases :
  forall s,
    let area := computed_area (st_height s) (st_left s) (st_right s) in
    (get (st_height s) (st_left s) < get (st_height s) (st_right s) /\
     body s = {| st_height := st_height s;
                 st_maxArea := Z.max (st_maxArea s) area;
                 st_left := st_left s + 1; st_right := st_right s |})
    \/
    (get (st_height s) (st_right s) <= get (st_height s) (st_left s) /\
     body s = {| st_height := st_height s;
                 st_maxArea := Z.max (st_maxArea s) area;
                 st_left := st_left s; st_right := st_right s - 1 |}).
Proof.
  intros s area. unfold body.
  destruct (get (st_height s) (st_left s) <? get (st_height s) (st_right s))
    eqn:E.
  - left. apply Z.ltb_lt in E. split; [exact E|reflexivity].
  - right. apply Z.ltb_ge in E. split; [exact E|reflexivity].
Qed.

(** On equal heights it is [right] that moves. *)
Lemma body_tie :
  forall s, get (st_height s) (st_left s) = get (st_height s) (st_right s) ->
    st_left (body s) = st_left s /\ st_right (body s) = st_right s - 1.
Proof.
  intros s Heq. destruct (body_cases s) as [[Hlt E]|[_ E]]; rewrite E; simpl.
  - lia.
  - split; reflexivity.
Qed.

Lemma invariant_body :
  forall height s, invariant height s -> guard s = true ->
    invariant height (body s).
Proof.
  intros height s [Hh Hl Hr Ho Hm Ha Hc] Hg. apply guard_true in Hg.
  assert (Hatt : attained height
            (Z.max (st_maxArea s) (computed_area height (st_left s) (st_right s)))).
  { destruct (Z.max_spec (st_maxArea s)
                (computed_area height (st_left s) (st_right s))) as [[_ E]|[_ E]];
      rewrite E; [|exact Ha].
    right. exists (st_left s), (st_right s). repeat split; lia. }
  destruct (body_cases s) as [[Hlt E]|[Hge E]]; rewrite E; rewrite Hh in *;
    constructor; simpl; try reflexivity; try lia; try exact Hatt.
  - intros i j Hi Hij Hj. destruct (Hc i j Hi Hij Hj) as [[Hli Hjr]|Hdone];
      [|right; lia].
    destruct (Z.eq_dec i (st_left s)) as [->|Hne]; [|left; lia].
    right.
    pose proof (computed_keep_left height (st_left s) j (st_right s)
                  ltac:(lia) ltac:(lia) ltac:(lia)).
    lia.
  - intros i j Hi Hij Hj. destruct (Hc i j Hi Hij Hj) as [[Hli Hjr]|Hdone];
      [|right; lia].
    destruct (Z.eq_dec j (st_right s)) as [->|Hne]; [|left; lia].
    right.
    pose proof (computed_keep_right height (st_left s) i (st_right s)
                  ltac:(lia) ltac:(lia) ltac:(lia)).
    lia.
Qed.

Lemma gap_body :
  forall height s, invariant height s -> guard s = true ->
    (gap (body s) < gap s)%nat.
Proof.
  intros height s _ Hg. apply guard_true in Hg. unfold gap.
  destruct (body_cases s) as [[_ E]|[_ E]]; rewrite E; simpl; lia.
Qed.

Lemma gap_init : forall height, (gap (init height) <= length height)%nat.
Proof. intros height. unfold gap, init, len. simpl. lia. Qed.

(** With [height.length] iterations allowed the loop has run to its exit. *)
Lemma run_exits :
  forall height, while_runs guard body (init height) (run height).
Proof.
  intros height. unfold run.
  apply (while_enough_fuel guard body (invariant height)
           (invariant_body height) gap (gap_body height)).
  - apply invariant_init.
  - apply gap_init.
Qed.

Lemma run_invariant : forall height, invariant height (run height).
Proof.
  intros height. unfold run. apply while_inv.
  - apply invariant_body.
  - apply invariant_init.
Qed.

Lemma run_guard : forall height, guard (run height) = false.
Proof. intros height. eapply while_runs_exit, run_exits. Qed.

Lemma visits_invariant :
  forall height s, while_visits guard body (init height) s ->
    invariant height s.
Proof.
  intros height s Hv.
  eapply while_visits_inv; [apply invariant_body|apply invariant_init|exact Hv].
Qed.

(** Every read [height[left]] and [height[right]] of an iteration is
    inside the array. *)
Lemma maxArea_reads_in_range :
  forall height s, while_visits guard body (init height) s ->
    guard s = true ->
    0 <= st_left s < len height /\ 0 <= st_right s < len height.
Proof.
  intros height s Hv Hg. apply guard_true in Hg.
  destruct (visits_invariant height s Hv). lia.
Qed.

(** The value returned bounds the area of every pair of lines. *)
Lemma maxArea_upper :
  forall height i j, 0 <= i -> i < j -> j < len height ->
    computed_area height i j <= maxArea height.
Proof.
  intros height i j Hi Hij Hj. unfold maxArea.
  pose proof (run_guard height) as Hg. apply guard_false in Hg.
  destruct (inv_covered _ _ (run_invariant height) i j Hi Hij Hj); lia.
Qed.

Lemma maxArea_attained : forall height, attained height (maxArea height).
Proof. intros height. apply (inv_attained _ _ (run_invariant height)). Qed.

Lemma maxArea_nonneg : forall height, 0 <= maxArea height.
Proof. intros height. apply (inv_maxArea _ _ (run_invariant height)). Qed.

End TwoPointersFacts.

(** ** The brute-force loops *)

Module BruteForceFacts.
Import BruteForce.

Lemma inner_invariant_body :
  forall height i m0 s,
    inner_invariant height i m0 s -> inner_guard (len height) s = true ->
    inner_invariant height i m0 (inner_body height i s).
Proof.
  intros height i m0 s (Hj & Hm & Hc & Ha) Hg.
  unfold inner_guard in Hg. apply Z.ltb_lt in Hg.
  unfold inner_invariant, inner_body; simpl.
  fold (computed_area height i (in_j s)).
  repeat split; try lia.
  - intros j Hij Hlt Hn. destruct (Z.eq_dec j (in_j s)) as [->|Hne]; [lia|].
    specialize (Hc j Hij ltac:(lia) Hn). lia.
  - destruct (Z.max_spec (in_maxArea s) (computed_area height i (in_j s)))
      as [[_ E]|[_ E]]; rewrite E; [|exact Ha].
    right. exists (in_j s). repeat split; lia.
Qed.

Lemma inner_loop_spec :
  forall height i m0, 0 <= i ->
    m0 <= inner_loop height (len height) i m0 /\
    (forall j, i < j -> j < len height ->
       computed_area height i j <= inner_loop height (len height) i m0) /\
    (inner_loop height (len height) i m0 = m0 \/
     exists j, i < j /\ j < len height /\
       inner_loop height (len height) i m0 = computed_area height i j).
Proof.
  intros height i m0 Hi. unfold inner_loop, inner_run.
  destruct (while_total (inner_guard (len height)) (inner_body height i)
              (inner_invariant height i m0) (inner_invariant_body height i m0)
              (fun s => Z.to_nat (len height - in_j s)))
    with (fuel := length height) (s := {| in_j := i + 1; in_maxArea := m0 |})
    as [(Hj & Hm & Hc & Ha) Hg].
  - intros s _ Hg. unfold inner_guard in Hg. apply Z.ltb_lt in Hg.
    unfold inner_body; simpl. lia.
  - unfold inner_invariant; simpl. repeat split; try lia; now left.
  - simpl. unfold len. lia.
  - set (final := while _ _ _ _) in *.
    unfold inner_guard in Hg. apply Z.ltb_ge in Hg.
    repeat split; [exact Hm| |exact Ha].
    intros j Hij Hn. apply Hc; lia.
Qed.

Lemma outer_invariant_body :
  forall height s,
    outer_invariant height s -> outer_guard (len height) s = true ->
    outer_invariant height (outer_body height (len height) s).
Proof.
  intros height s (Hi & Hm & Hc & Ha) Hg.
  unfold outer_guard in Hg. apply Z.ltb_lt in Hg.
  destruct (inner_loop_spec height (out_i s) (out_maxArea s) Hi)
    as (Hge & Hrow & Hatt).
  unfold outer_invariant, outer_body; simpl.
  repeat split; try lia.
  - intros i j H0 Hlt Hij Hn.
    destruct (Z.eq_dec i (out_i s)) as [->|Hne]; [now apply Hrow|].
    specialize (Hc i j H0 ltac:(lia) Hij Hn). lia.
  - destruct Hatt as [->|(j & Hij & Hn & ->)]; [exact Ha|].
    right. exists (out_i s), j. repeat split; lia.
Qed.

Lemma maxAreaBruteForce_spec :
  forall height,
    0 <= maxAreaBruteForce height /\
    (forall i j, 0 <= i -> i < j -> j < len height ->
       computed_area height i j <= maxAreaBruteForce height) /\
    attained height (maxAreaBruteForce height).
Proof.
  intros height. unfold maxAreaBruteForce, run.
  destruct (while_total (outer_guard (len height))
              (outer_body height (len height))
              (outer_invariant height) (outer_invariant_body height)
              (fun s => Z.to_nat (len height - out_i s)))
    with (fuel := length height) (s := {| out_i := 0; out_maxArea := 0 |})
    as [(Hi & Hm & Hc & Ha) Hg].
  - intros s _ Hg. unfold outer_guard in Hg. apply Z.ltb_lt in Hg.
    unfold outer_body; simpl. lia.
  - unfold outer_invariant; simpl. repeat split; try lia; now left.
  - simpl. unfold len. lia.
  - set (final := while _ _ _ _) in *.
    unfold outer_guard in Hg. apply Z.ltb_ge in Hg.
    repeat split; [exact Hm| |exact Ha].
    intros i j H0 Hij Hn. apply Hc; lia.
Qed.

Lemma inner_loop_exits :
  forall height i m0, 0 <= i ->
    while_runs (inner_guard (len height)) (inner_body height i)
      {| in_j := i + 1; in_maxArea := m0 |}
      (inner_run height (len height) i m0).
Proof.
  intros height i m0 Hi. unfold inner_run.
  apply (while_enough_fuel _ _ (fun _ => True) (fun _ _ _ => I)
           (fun s => Z.to_nat (len height - in_j s))).
  - intros s _ Hg. unfold inner_guard in Hg. apply Z.ltb_lt in Hg.
    unfold inner_body; simpl. lia.
  - exact I.
  - simpl. unfold len. lia.
Qed.

Lemma maxAreaBruteForce_exits :
  forall height,
    while_runs (outer_guard (len height)) (outer_body height (len height))
      {| out_i := 0; out_maxArea := 0 |} (run height).
Proof.
  intros height. unfold run.
  apply (while_enough_fuel _ _ (fun _ => True) (fun _ _ _ => I)
           (fun s => Z.to_nat (len height - out_i s))).
  - intros s _ Hg. unfold outer_guard in Hg. apply Z.ltb_lt in Hg.
    unfold outer_body; simpl. lia.
  - exact I.
  - simpl. unfold len. lia.
Qed.

(** Every read [height[i]] and [height[j]] of the nested loops is inside
    the array. *)
Lemma maxAreaBruteForce_reads_in_range :
  forall height s t,
    let n := len height in
    while_visits (outer_guard n) (outer_body height n)
      {| out_i := 0; out_maxArea := 0 |} s ->
    outer_guard n s = true ->
    while_visits (inner_guard n) (inner_body height (out_i s))
      {| in_j := out_i s + 1; in_maxArea := out_maxArea s |} t ->
    inner_guard n t = true ->
    0 <= out_i s < n /\ 0 <= in_j t < n.
Proof.
  intros height s t n Hs Hgs Ht Hgt.
  assert (Hout : outer_invariant height s).
  { eapply while_visits_inv; [apply outer_invariant_body| |exact Hs].
    unfold outer_invariant; simpl. repeat split; try lia; now left. }
  assert (Hin : inner_invariant height (out_i s) (out_maxArea s) t).
  { eapply while_visits_inv; [apply inner_invariant_body| |exact Ht].
    unfold inner_invariant; simpl. repeat split; try lia; now left. }
  destruct Hout as (Hi & _). destruct Hin as (Hj & _).
  unfold outer_guard in Hgs. unfold inner_guard in Hgt.
  apply Z.ltb_lt in Hgs, Hgt. lia.
Qed.

End BruteForceFacts.

(** The [for] loop of [maxAreaAlternative] exits within [height.length]
    iterations. *)
Lemma maxAreaAlternative_exits :
  forall height,
    while_runs Alternative.guard (Alternative.body height)
      (Alternative.init height) (Alternative.run height).
Proof.
  intros height. unfold Alternative.run.
  apply (while_enough_fuel _ _ (fun _ => True) (fun _ _ _ => I)
           (fun s => Z.to_nat (Alternative.st_j s - Alternative.st_i s))).
  - intros s _ Hg. unfold Alternative.guard in Hg. apply Z.ltb_lt in Hg.
    unfold Alternative.body.
    destruct (get height (Alternative.st_i s) <?
              get height (Alternative.st_j s)); simpl; lia.
  - exact I.
  - simpl. unfold len. lia.
Qed.

(** The two functions agree on every array of integers. *)
Lemma maxArea_eq_bruteForce :
  forall height, maxArea height = maxAreaBruteForce height.
Proof.
  intros height.
  destruct (BruteForceFacts.maxAreaBruteForce_spec height) as (Hb0 & Hbu & Hba).
  pose proof (TwoPointersFacts.maxArea_nonneg height) as Ht0.
  pose proof (TwoPointersFacts.maxArea_upper height) as Htu.
  pose proof (TwoPointersFacts.maxArea_attained height) as Hta.
  apply Z.le_antisymm.
  - destruct Hta as [->|(i & j & Hi & Hij & Hj & ->)];
      [exact Hb0|now apply Hbu].
  - destruct Hba as [->|(i & j & Hi & Hij & Hj & ->)];
      [exact Ht0|now apply Htu].
Qed.

(** ** Results on [maxArea] *)

Section MaxArea.
Import TwoPointers TwoPointersFacts.



(** Beyond [2 ^ 53] the products are rounded: on four lines of height
    [2 ^ 53 - 1] both functions return the Number next below the exact
    product of the outermost pair. *)
Lemma maxArea_rounded_product :
  maxArea (repeat 9007199254740991 4) = 27021597764222972 /\
  maxAreaBruteForce (repeat 9007199254740991 4) = 27021597764222972 /\
  pair_area (repeat 9007199254740991 4) 0 3 = 27021597764222973.
Proof. repeat split; vm_compute; reflexivity. Qed.

(** C2. [maxArea] returns 49 on [[1,8,6,2,5,4,8,3,7]], 1 on [[1,1]] and
    15 on [[5,5,5,5]]. *)
Theorem maxArea_examples :
  maxArea [1; 8; 6; 2; 5; 4; 8; 3; 7] = 49 /\
  maxArea [1; 1] = 1 /\
  maxArea [5; 5; 5; 5] = 15.
Proof. repeat split; vm_compute; reflexivity. Qed.

(** With the kept line [l] of non-negative height no higher than the
    line [r], pulling [r] inwards gives no larger area. *)
Lemma inward_move_left_kept :
  forall height l r r',
    l < r' -> r' < r ->
    0 <= get height l ->
    get height l <= get height r ->
    pair_area height l r' <= pair_area height l r.
Proof.
  intros height l r r' Hlr' Hr'r Hpos Hh.
  pose proof (area_keep_left height l r' r Hlr' ltac:(lia) Hh) as Hk.
  assert (0 <= pair_area height l r)
    by (unfold pair_area; rewrite Z.min_l by exact Hh;
        apply Z.mul_nonneg_nonneg; lia).
  lia.
Qed.

(** C3. The greedy move is sound: for every sequence of non-negative
    heights and indices [l < r] of it with [height[l] <= height[r]],
    every pair [(l, r')] with [l < r' < r] has area
    [(r' - l) * min(height[l], height[r'])] at most
    [(r - l) * min(height[l], height[r])], in exact arithmetic and as
    the functions compute it; moving the index of the larger height
    never gives a larger area. *)
Theorem greedy_move_sound :
  forall height l r r',
    nonneg height ->
    0 <= l -> r < len height ->
    l < r' -> r' < r ->
    get height l <= get height r ->
    pair_area height l r' <= pair_area height l r /\
    computed_area height l r' <= computed_area height l r.
Proof.
  intros height l r r' Hpos Hl Hr Hlr' Hr'r Hh.
  assert (H : pair_area height l r' <= pair_area height l r)
    by (apply inward_move_left_kept; try assumption; now apply get_nonneg).
  split; [exact H|].
  rewrite !computed_area_round. now apply NumberFacts.round64_mono.
Qed.

Lemma greedy_move_sound_witness :
  pair_area [3; 9; 4; 7] 0 2 <= pair_area [3; 9; 4; 7] 0 3 /\
  computed_area [3; 9; 4; 7] 0 2 <= computed_area [3; 9; 4; 7] 0 3.
Proof.
  apply (greedy_move_sound [3; 9; 4; 7] 0 3 2).
  - unfold nonneg; repeat (apply Forall_cons; [lia|]); apply Forall_nil.
  - lia.
  - vm_compute; reflexivity.
  - lia.
  - lia.
  - vm_compute; discriminate.
Defined.

(** On non-negative heights both moves are covered: whichever end has
    the larger height, moving it inwards gives no larger area. *)
Lemma inward_move_no_gain :
  forall height l r k,
    nonneg height -> l < k -> k < r ->
    (get height l <= get height r ->
       pair_area height l k <= pair_area height l r) /\
    (get height r <= get height l ->
       pair_area height k r <= pair_area height l r).
Proof.
  intros height l r k Hpos Hlk Hkr.
  pose proof (pair_area_nonneg height l r Hpos ltac:(lia)).
  split; intros Hh.
  - pose proof (area_keep_left height l k r Hlk ltac:(lia) Hh). lia.
  - pose proof (area_keep_right height l k r ltac:(lia) Hkr Hh). lia.
Qed.

(** C4. The loop of [maxArea] terminates on every array: it has a run
    from the initial state, ending in the state the function returns
    from; an iteration moves exactly one of the two indices by one
    towards the other, so [right - left] strictly decreases; and on exit
    the indices have met. *)
Theorem maxArea_terminates :
  forall height,
    while_runs guard body (init height) (run height) /\
    (forall s, guard s = true ->
       ((st_left (body s) = st_left s + 1 /\ st_right (body s) = st_right s) \/
        (st_left (body s) = st_left s /\ st_right (body s) = st_right s - 1)) /\
       st_right (body s) - st_left (body s) < st_right s - st_left s /\
       (gap (body s) < gap s)%nat) /\
    guard (run height) = false /\
    (height <> [] -> st_left (run height) = st_right (run height)).
Proof.
  intros height. split; [apply run_exits|]. split; [|split].
  - intros s Hg. apply guard_true in Hg. unfold gap.
    destruct (body_cases s) as [[_ E]|[_ E]]; rewrite E; simpl; lia.
  - apply run_guard.
  - intros Hne. pose proof (run_guard height) as Hg. apply guard_false in Hg.
    pose proof (inv_order _ _ (run_invariant height) Hne). lia.
Qed.

Lemma maxArea_terminates_witness :
  guard (init [1; 1]) = true /\
  Nat.lt (gap (body (init [1; 1]))) (gap (init [1; 1])) /\
  st_left (run [1; 1]) = st_right (run [1; 1]).
Proof.
  destruct (maxArea_terminates [1; 1]) as (_ & Hstep & _ & Hmeet).
  assert (Hg : guard (init [1; 1]) = true) by reflexivity.
  split; [exact Hg|]. split.
  - exact (proj2 (proj2 (Hstep (init [1; 1]) Hg))).
  - apply Hmeet. discriminate.
Defined.

(** C5. [maxArea] follows the described steps: the indices start at the
    two ends of the array with a maximum of 0; every iteration takes
    [(right - left) * min(height[left], height[right])], the product of
    Numbers ([number_mul]), the exact product up to [2 ^ 53], as
    candidate and keeps the larger of it and the running maximum; the
    index with the strictly smaller height is the one advanced, and on
    equal heights one of the two is; the value returned is the running
    maximum at the exit of the loop. *)
Theorem maxArea_follows_algorithm :
  forall height,
    (st_maxArea (init height) = 0 /\
     st_left (init height) = 0 /\
     st_right (init height) = len height - 1) /\
    (forall s, while_visits guard body (init height) s -> guard s = true ->
       st_maxArea (body s) =
         Z.max (st_maxArea s)
           (number_mul (st_right s - st_left s)
              (Z.min (get height (st_left s)) (get height (st_right s)))) /\
       (Z.abs (pair_area height (st_left s) (st_right s))
          <= 9007199254740992 ->
        st_maxArea (body s) =
          Z.max (st_maxArea s)
            ((st_right s - st_left s) *
             Z.min (get height (st_left s)) (get height (st_right s)))) /\
       (get height (st_left s) < get height (st_right s) ->
          st_left (body s) = st_left s + 1 /\ st_right (body s) = st_right s) /\
       (get height (st_right s) < get height (st_left s) ->
          st_left (body s) = st_left s /\ st_right (body s) = st_right s - 1) /\
       (get height (st_left s) = get height (st_right s) ->
          (st_left (body s) = st_left s + 1 /\ st_right (body s) = st_right s) \/
          (st_left (body s) = st_left s /\ st_right (body s) = st_right s - 1))) /\
    (forall s', while_runs guard body (init height) s' ->
       maxArea height = st_maxArea s').
Proof.
  intros height. split; [repeat split|]. split.
  - intros s Hv Hg.
    pose proof (inv_height _ _ (visits_invariant height s Hv)) as Hh.
    assert (Hex : Z.abs (pair_area height (st_left s) (st_right s))
                    <= 9007199254740992 ->
                  computed_area height (st_left s) (st_right s) =
                  (st_right s - st_left s) *
                  Z.min (get height (st_left s)) (get height (st_right s)))
      by apply computed_area_exact.
    destruct (body_cases s) as [[Hc E]|[Hc E]]; rewrite E; rewrite Hh in *;
      simpl; repeat split; intros; try (rewrite Hex by assumption);
      try reflexivity; lia.
  - intros s' Hrun. unfold maxArea.
    now rewrite (while_runs_det guard body _ _ Hrun _ (run_exits height)).
Qed.

Lemma maxArea_follows_algorithm_witness :
  st_maxArea (body (init [2; 5; 9])) = 4 /\
  st_left (body (init [2; 5; 9])) = 1 /\
  st_right (body (init [2; 5; 9])) = 2.
Proof.
  destruct (maxArea_follows_algorithm [2; 5; 9]) as (_ & Hstep & _).
  destruct (Hstep (init [2; 5; 9])) as (_ & Hexact & Hleft & _).
  - apply visits_first.
  - reflexivity.
  - split.
    + rewrite Hexact; [reflexivity|]. vm_compute. discriminate.
    + apply Hleft. vm_compute. reflexivity.
Defined.

(** C8. On every array the [for] loop variant [maxAreaAlternative]
    returns what [maxArea] returns. *)
Theorem maxAreaAlternative_eq_maxArea :
  forall height, maxAreaAlternative height = maxArea height.
Proof.
  intros height. unfold maxAreaAlternative, maxArea, run, Alternative.run.
  apply (while_simulation
           (fun a s => st_height s = height /\
                       Alternative.st_maxArea a = st_maxArea s /\
                       Alternative.st_i a = st_left s /\
                       Alternative.st_j a = st_right s)
           Alternative.guard (Alternative.body height) guard body).
  - intros a s (_ & _ & Hi & Hj). unfold Alternative.guard, guard.
    now rewrite Hi, Hj.
  - intros a s (Hh & Hm & Hi & Hj) _. unfold Alternative.body, body.
    rewrite Hh, Hm, Hi, Hj.
    destruct (get height (st_left s) <? get height (st_right s));
      simpl; repeat split; reflexivity.
  - repeat split; reflexivity.
Qed.

(** C9. On every array of length 0 or 1 [maxArea] returns 0: the guard
    [left < right] fails on entry and the initial maximum is returned. *)
Theorem maxArea_short_input :
  forall height,
    (length height <= 1)%nat ->
    guard (init height) = false /\ maxArea height = 0.
Proof.
  intros [|x [|y rest]] Hlen; simpl in Hlen; try lia; split; reflexivity.
Qed.

Lemma maxArea_short_input_witness :
  Nat.le (length [7]) 1 /\ guard (init [7]) = false /\ maxArea [7] = 0.
Proof.
  assert (Hlen : Nat.le (length [7]) 1) by (simpl; lia).
  split; [exact Hlen|exact (maxArea_short_input [7] Hlen)].
Defined.

(** C10. [maxArea] never writes to its argument: in every state of the
    loop, and when the function returns, the array is the one passed
    in, element by element. *)
Theorem maxArea_preserves_argument :
  forall height,
    (forall s, while_visits guard body (init height) s ->
       st_height s = height) /\
    st_height (run height) = height /\
    (forall k, nth_error (st_height (run height)) k = nth_error height k).
Proof.
  intros height.
  assert (E : st_height (run height) = height)
    by apply (inv_height _ _ (run_invariant height)).
  split; [|split].
  - intros s Hv. apply (inv_height _ _ (visits_invariant height s Hv)).
  - exact E.
  - intros k. now rewrite E.
Qed.

Lemma maxArea_preserves_argument_witness :
  st_height (body (init [4; 3; 2; 1; 4])) = [4; 3; 2; 1; 4].
Proof.
  apply (proj1 (maxArea_preserves_argument [4; 3; 2; 1; 4])).
  apply visits_next; [apply visits_first|reflexivity].
Defined.

End MaxArea.

(** ** The second-highest-salary query *)

Module SqlFacts.
Import Sql.

Lemma In_insert_desc :
  forall x y rows, In x (insert_desc y rows) <-> x = y \/ In x rows.
Proof.
  intros x y rows. induction rows as [|z rest IH]; simpl.
  - intuition.
  - destruct (z <? y); simpl; [intuition|].
    rewrite IH. intuition.
Qed.

Lemma In_order_by_desc :
  forall x rows, In x (order_by_desc rows) <-> In x rows.
Proof.
  intros x rows. induction rows as [|y rest IH]; simpl; [reflexivity|].
  rewrite In_insert_desc, IH. intuition.
Qed.

Lemma insert_desc_descending :
  forall y rows, descending rows -> descending (insert_desc y rows).
Proof.
  unfold descending. intros y rows H.
  induction H as [|z rest Hrest IH Hz]; simpl.
  - repeat constructor.
  - destruct (z <? y) eqn:E.
    + apply Z.ltb_lt in E. constructor; [now constructor|].
      constructor; [lia|].
      rewrite Forall_forall in *. intros w Hw. specialize (Hz w Hw). lia.
    + apply Z.ltb_ge in E. constructor; [exact IH|].
      rewrite Forall_forall in *. intros w Hw.
      apply In_insert_desc in Hw. destruct Hw as [->|Hw]; [exact E|auto].
Qed.

Lemma order_by_desc_descending : forall rows, descending (order_by_desc rows).
Proof.
  induction rows as [|y rest IH]; simpl; [constructor|].
  now apply insert_desc_descending.
Qed.

Lemma insert_desc_NoDup :
  forall y rows, NoDup rows -> ~ In y rows -> NoDup (insert_desc y rows).
Proof.
  intros y rows H. induction H as [|z rest Hz Hrest IH]; simpl; intros Hy.
  - constructor; [intros []|constructor].
  - destruct (z <? y).
    + constructor; [simpl; exact Hy|now constructor].
    + constructor; [|apply IH; tauto].
      rewrite In_insert_desc. intros [->|Hin]; tauto.
Qed.

Lemma order_by_desc_NoDup :
  forall rows, NoDup rows -> NoDup (order_by_desc rows).
Proof.
  intros rows H. induction H as [|y rest Hy Hrest IH]; simpl; [constructor|].
  apply insert_desc_NoDup; [exact IH|]. now rewrite In_order_by_desc.
Qed.

(** The rows the [LIMIT]/[OFFSET] clause cuts from. *)
Lemma ranked_spec :
  forall Employee,
    let ranked := order_by_desc (distinct Employee) in
    NoDup ranked /\ descending ranked /\
    (forall x, In x ranked <-> In x Employee).
Proof.
  intros Employee ranked. unfold ranked, distinct. split; [|split].
  - apply order_by_desc_NoDup, NoDup_nodup.
  - apply order_by_desc_descending.
  - intros x. rewrite In_order_by_desc. apply nodup_In.
Qed.

(** The query either finds no second row, on a table without two
    distinct salaries, or returns the second-largest distinct salary. *)
Lemma SecondHighestSalary_cases :
  forall Employee,
    (SecondHighestSalary Employee = None /\ ~ two_distinct Employee) \/
    (exists v, SecondHighestSalary Employee = Some v /\
               second_largest Employee v /\ two_distinct Employee).
Proof.
  intros Employee. unfold SecondHighestSalary.
  destruct (ranked_spec Employee) as (Hnd & Hsort & Hin).
  unfold descending in Hsort.
  destruct (order_by_desc (distinct Employee)) as [|a [|b rest]]; simpl in *.
  - left. split; [reflexivity|].
    intros (x & _ & Hx & _). now apply Hin in Hx.
  - left. split; [reflexivity|].
    intros (x & y & Hx & Hy & Hne).
    apply Hin in Hx, Hy. intuition congruence.
  - right. exists b.
    inversion Hsort as [|? ? Hrest Ha]; subst.
    inversion Hrest as [|? ? _ Hb]; subst.
    inversion Ha as [|? ? Hba _]; subst.
    inversion Hnd as [|? ? Hnotin _]; subst.
    assert (Hne : a <> b) by (intros ->; apply Hnotin; now left).
    assert (Hlt : b < a) by lia.
    assert (Ina : In a Employee) by (apply Hin; left; reflexivity).
    assert (Inb : In b Employee) by (apply Hin; right; left; reflexivity).
    split; [reflexivity|]. split.
    + split; [exact Inb|]. exists a. repeat split; try assumption.
      intros x Hx. apply Hin in Hx. destruct Hx as [->|[->|Hx]].
      * now left.
      * right. lia.
      * right. rewrite Forall_forall in Hb. now apply Hb.
    + exists a, b. repeat split; assumption.
Qed.

End SqlFacts.

(** C6. The [DISTINCT] query returns the second-largest distinct salary
    when the table has at least two distinct salaries, and returns
    [NULL] exactly when it has fewer than two. *)
Theorem SecondHighestSalary_correct :
  forall Employee,
    (Sql.two_distinct Employee ->
       exists v, Sql.SecondHighestSalary Employee = Some v /\
                 Sql.second_largest Employee v) /\
    (Sql.SecondHighestSalary Employee = None <->
       ~ Sql.two_distinct Employee).
Proof.
  intros Employee.
  destruct (SqlFacts.SecondHighestSalary_cases Employee)
    as [[E Hno]|(v & E & Hv & Htwo)]; rewrite E.
  - split; [tauto|]. tauto.
  - split; [intros _; now exists v|].
    split; [discriminate|tauto].
Qed.

Lemma SecondHighestSalary_correct_witness :
  exists v, Sql.SecondHighestSalary [300; 300; 200; 200] = Some v /\
            Sql.second_largest [300; 300; 200; 200] v.
Proof.
  apply (proj1 (SecondHighestSalary_correct [300; 300; 200; 200])).
  exists 300, 200. simpl. repeat split; try lia; tauto.
Defined.

(** The five tables of the script's test cases. *)
Lemma SecondHighestSalary_test_cases :
  Sql.SecondHighestSalary [300; 200; 100] = Some 200 /\
  Sql.SecondHighestSalary [300; 300] = None /\
  Sql.SecondHighestSalary [300; 300; 200; 200] = Some 200 /\
  Sql.SecondHighestSalary [300] = None /\
  Sql.SecondHighestSalary [300; 300; 300] = None.
Proof. repeat split; vm_compute; reflexivity. Qed.

(** ** [NaN] *)

(** C7. [NaN == NaN] and [NaN === NaN] are [false], and
    [Object.is(NaN, NaN)] is [true]. *)
Theorem NaN_comparisons :
  Equality.loose_equals Equality.NaN Equality.NaN = false /\
  Equality.strict_equals Equality.NaN Equality.NaN = false /\
  Equality.Object_is Equality.NaN Equality.NaN = true.
Proof. repeat split; reflexivity. Qed.

(** * Further properties *)

(** ** [maxArea] on every array *)

Section MaxAreaMore.
Import TwoPointersFacts.

(** The value [maxArea] returns is determined by three facts. *)
Lemma maxArea_unique :
  forall height m,
    0 <= m ->
    (forall i j, 0 <= i -> i < j -> j < len height ->
       computed_area height i j <= m) ->
    attained height m ->
    maxArea height = m.
Proof.
  intros height m Hm Hup Hatt. apply Z.le_antisymm.
  - destruct (maxArea_attained height) as [->|(i & j & Hi & Hij & Hj & ->)];
      [exact Hm|now apply Hup].
  - destruct Hatt as [->|(i & j & Hi & Hij & Hj & ->)];
      [apply maxArea_nonneg|now apply maxArea_upper].
Qed.

(** X1. On every array of integers, of any length and with entries of
    any sign, [maxArea] and [maxAreaBruteForce] return the same value; it
    is never negative, it bounds the area the functions compute for every
    pair of lines, the product of Numbers, and it is 0 or the computed
    area of some pair. *)
Theorem maxArea_brute_force_every_array :
  forall height,
    maxArea height = maxAreaBruteForce height /\
    0 <= maxArea height /\
    (forall i j, 0 <= i -> i < j -> j < len height ->
       computed_area height i j <= maxArea height) /\
    attained height (maxArea height).
Proof.
  intros height. split; [apply maxArea_eq_bruteForce|].
  split; [apply maxArea_nonneg|].
  split; [apply maxArea_upper|apply maxArea_attained].
Qed.

Lemma maxArea_brute_force_every_array_witness :
  computed_area [-3; 2; -1; 4] 1 3 <= maxArea [-3; 2; -1; 4].
Proof.
  apply (maxArea_brute_force_every_array [-3; 2; -1; 4]).
  - lia.
  - lia.
  - vm_compute. reflexivity.
Defined.

Lemma get_repeat :
  forall c n i, 0 <= i -> i < Z.of_nat n -> get (repeat c n) i = c.
Proof.
  intros c n i Hi Hn. unfold get.
  rewrite (nth_indep _ 0 c) by (rewrite repeat_length; lia).
  apply nth_repeat.
Qed.

(** X2. Lines of one height: on [n >= 1] lines that all have the height
    [c >= 0], [maxArea] returns the product [(n - 1) * c] of Numbers, the
    area between the two outermost lines; it is the exact product as
    long as that does not exceed [2 ^ 53]. *)
Theorem maxArea_uniform :
  forall c n,
    0 <= c -> (1 <= n)%nat ->
    maxArea (repeat c n) = number_mul (Z.of_nat n - 1) c /\
    ((Z.of_nat n - 1) * c <= 9007199254740992 ->
       maxArea (repeat c n) = (Z.of_nat n - 1) * c).
Proof.
  intros c n Hc Hn.
  assert (Hlen : len (repeat c n) = Z.of_nat n)
    by (unfold len; now rewrite repeat_length).
  assert (Hpair : forall i j, 0 <= i -> i < j -> j < Z.of_nat n ->
            computed_area (repeat c n) i j = number_mul (j - i) c).
  { intros i j Hi Hij Hj. unfold computed_area.
    rewrite !get_repeat by lia. now rewrite Z.min_id. }
  assert (E : maxArea (repeat c n) = number_mul (Z.of_nat n - 1) c).
  { apply maxArea_unique.
    - apply NumberFacts.round64_nonneg. apply Z.mul_nonneg_nonneg; lia.
    - intros i j Hi Hij Hj. rewrite Hlen in Hj. rewrite Hpair by lia.
      apply NumberFacts.round64_mono. apply Z.mul_le_mono_nonneg_r; lia.
    - destruct (Nat.eq_dec n 1) as [->|Hne].
      + left. vm_compute. reflexivity.
      + right. exists 0, (Z.of_nat n - 1). rewrite Hlen.
        repeat split; try lia.
        rewrite Hpair by lia. now rewrite Z.sub_0_r. }
  split; [exact E|]. intros Hsmall. rewrite E.
  apply NumberFacts.number_mul_exact.
  assert (0 <= (Z.of_nat n - 1) * c) by (apply Z.mul_nonneg_nonneg; lia).
  lia.
Qed.

Lemma maxArea_uniform_witness :
  maxArea (repeat 5 4) = number_mul (Z.of_nat 4 - 1) 5 /\
  maxArea (repeat 5 4) = (Z.of_nat 4 - 1) * 5.
Proof.
  destruct (maxArea_uniform 5 4) as [E H]; [lia|lia|].
  split; [exact E|]. apply H. vm_compute. discriminate.
Defined.

Lemma len_rev : forall height, len (rev height) = len height.
Proof. intros height. unfold len. now rewrite length_rev. Qed.

Lemma get_rev :
  forall height i, 0 <= i -> i < len height ->
    get (rev height) i = get height (len height - 1 - i).
Proof.
  intros height i Hi Hn. unfold get, len in *.
  rewrite rev_nth by lia. f_equal. lia.
Qed.

Lemma pair_area_rev :
  forall height i j, 0 <= i -> i < j -> j < len height ->
    pair_area (rev height) i j =
    pair_area height (len height - 1 - j) (len height - 1 - i).
Proof.
  intros height i j Hi Hij Hj. unfold pair_area.
  rewrite !get_rev by lia. rewrite Z.min_comm. f_equal. lia.
Qed.

Lemma computed_area_rev :
  forall height i j, 0 <= i -> i < j -> j < len height ->
    computed_area (rev height) i j =
    computed_area height (len height - 1 - j) (len height - 1 - i).
Proof.
  intros height i j Hi Hij Hj. rewrite !computed_area_round.
  now rewrite pair_area_rev.
Qed.

(** X3. The result does not depend on the direction in which the lines
    are read: [maxArea] of the reversed array is [maxArea] of the array,
    although on equal heights the loop always moves [right]. *)
Theorem maxArea_rev :
  forall height, maxArea (rev height) = maxArea height.
Proof.
  intros height. apply maxArea_unique.
  - apply maxArea_nonneg.
  - intros i j Hi Hij Hj. rewrite len_rev in Hj.
    rewrite computed_area_rev by lia. apply maxArea_upper; lia.
  - destruct (maxArea_attained height) as [E|(i & j & Hi & Hij & Hj & E)];
      [now left|].
    right. exists (len height - 1 - j), (len height - 1 - i).
    rewrite len_rev. repeat split; try lia.
    rewrite computed_area_rev by lia. rewrite E. f_equal; lia.
Qed.

End MaxAreaMore.

(** ** [maxAreaWithSteps] *)

Module WithStepsFacts.
Import WithSteps.

Lemma steps_app :
  forall out1 out2, steps (out1 ++ out2) = steps out1 ++ steps out2.
Proof.
  induction out1 as [|[l hl r hr|e] out1 IH]; intros out2; simpl;
    [reflexivity|apply IH|now rewrite IH].
Qed.

Lemma steps_guard_true : forall s, guard s = true <-> st_left s < st_right s.
Proof. intros s. unfold guard. apply Z.ltb_lt. Qed.

(** The logging loop and the loop of [maxArea] move in lockstep. *)
Lemma run_matches :
  forall height, matches height (run height) (TwoPointers.run height).
Proof.
  intros height. unfold run, TwoPointers.run.
  apply (while_simulation (matches height)
           guard (body height) TwoPointers.guard TwoPointers.body).
  - intros s t (_ & _ & Hl & Hr). unfold guard, TwoPointers.guard.
    now rewrite Hl, Hr.
  - intros s t (Hh & Hm & Hl & Hr) _.
    unfold matches, body, TwoPointers.body. rewrite Hh, Hm, Hl, Hr.
    destruct (get height (TwoPointers.st_left t) <?
              get height (TwoPointers.st_right t));
      simpl; repeat split; reflexivity.
  - unfold matches. repeat split; reflexivity.
Qed.

Lemma counted_init : forall height, counted height (init height).
Proof.
  intros height. unfold counted; simpl.
  repeat split; try lia; try solve [intros l []].
  intros Hne. unfold len. destruct height; [congruence|simpl length; lia].
Qed.

Lemma counted_body :
  forall height s, counted height s -> guard s = true ->
    counted height (body height s).
Proof.
  intros height s (Hstep & Hnum & Hl & Hr & Hord & Hcnt & Hin) Hg.
  apply steps_guard_true in Hg.
  set (e := {| lg_step := st_step s;
               lg_left := st_left s;
               lg_heightLeft := get height (st_left s);
               lg_right := st_right s;
               lg_heightRight := get height (st_right s);
               lg_width := st_right s - st_left s;
               lg_containerHeight :=
                 Z.min (get height (st_left s)) (get height (st_right s));
               lg_area := computed_area height (st_left s) (st_right s);
               lg_maxSoFar :=
                 Z.max (st_maxArea s)
                   (computed_area height (st_left s) (st_right s));
               lg_moveLeft :=
                 get height (st_left s) <? get height (st_right s) |}).
  assert (Hout : steps (st_out s ++ [Step e]) = steps (st_out s) ++ [e])
    by (rewrite steps_app; reflexivity).
  assert (Hlen : length (steps (st_out s) ++ [e]) =
                 S (length (steps (st_out s))))
    by (rewrite length_app; simpl; lia).
  assert (Hnum' : map lg_step (steps (st_out s) ++ [e]) =
                  map Z.of_nat (seq 1 (S (length (steps (st_out s)))))).
  { rewrite map_app, Hnum, seq_S, map_app. simpl. f_equal. f_equal.
    rewrite Hstep. lia. }
  assert (Hin' : forall m l, Z.max (st_maxArea s)
                     (computed_area height (st_left s) (st_right s)) <= m ->
                   In l (steps (st_out s) ++ [e]) ->
                   0 <= lg_left l /\ lg_left l < lg_right l /\
                   lg_right l < len height /\
                   lg_area l = computed_area height (lg_left l) (lg_right l) /\
                   lg_area l <= lg_maxSoFar l /\ lg_maxSoFar l <= m).
  { intros m l Hm Hl'. apply in_app_or in Hl'. destruct Hl' as [Hold|[<-|[]]].
    - destruct (Hin l Hold) as (? & ? & ? & ? & ? & ?). repeat split; lia.
    - simpl. repeat split; lia. }
  unfold counted, body. fold (computed_area height (st_left s) (st_right s)).
  fold e.
  destruct (get height (st_left s) <? get height (st_right s));
    simpl; rewrite Hout, Hlen; (split; [lia|]); (split; [exact Hnum'|]);
    (split; [lia|]); (split; [lia|]);
    (split; [intros Hne; specialize (Hord Hne); lia|]);
    (split; [intros Hne; specialize (Hcnt Hne); lia|]);
    intros l Hl'; apply (Hin' _ l (Z.le_refl _) Hl').
Qed.

Lemma shape_body :
  forall height s first,
    st_out s = first :: map Step (steps (st_out s)) ->
    st_out (body height s) =
      first :: map Step (steps (st_out (body height s))).
Proof.
  intros height s first Hs.
  assert (G : forall e, st_out s ++ [Step e] =
                        first :: map Step (steps (st_out s ++ [Step e]))).
  { intros e. rewrite steps_app, map_app. simpl.
    rewrite app_comm_cons, <- Hs. reflexivity. }
  unfold body.
  destruct (get height (st_left s) <? get height (st_right s)); simpl; apply G.
Qed.

Lemma run_counted :
  forall height, counted height (run height) /\ guard (run height) = false.
Proof.
  intros height. unfold run.
  apply (while_total guard (body height) (counted height)
           (counted_body height)
           (fun s => Z.to_nat (st_right s - st_left s))).
  - intros s _ Hg. apply steps_guard_true in Hg. unfold body.
    destruct (get height (st_left s) <? get height (st_right s)); simpl; lia.
  - apply counted_init.
  - simpl. unfold len. lia.
Qed.

End WithStepsFacts.

(** X4. [maxAreaWithSteps] returns on every array what [maxArea]
    returns. *)
Theorem maxAreaWithSteps_returns_maxArea :
  forall height, snd (maxAreaWithSteps height) = maxArea height.
Proof.
  intros height. unfold maxAreaWithSteps, maxArea. simpl.
  destruct (WithStepsFacts.run_matches height) as (_ & Hm & _). exact Hm.
Qed.

(** X5. What [maxAreaWithSteps] prints: the [Initial:] line, with
    [undefined] heights on the empty array, followed by exactly
    [height.length - 1] steps (none on the empty array), numbered from 1;
    every step shows two indices [left < right] of the array, the area
    computed for them, the product of Numbers, and a maximum so far that
    is at least that area and at most the value returned. *)
Theorem maxAreaWithSteps_output :
  forall height,
    let out := fst (maxAreaWithSteps height) in
    let n := Z.to_nat (len height - 1) in
    out = WithSteps.Initial 0 (WithSteps.read height 0)
            (len height - 1) (WithSteps.read height (len height - 1))
          :: map WithSteps.Step (WithSteps.steps out) /\
    length (WithSteps.steps out) = n /\
    map WithSteps.lg_step (WithSteps.steps out) = map Z.of_nat (seq 1 n) /\
    (forall l, In l (WithSteps.steps out) ->
       0 <= WithSteps.lg_left l /\
       WithSteps.lg_left l < WithSteps.lg_right l /\
       WithSteps.lg_right l < len height /\
       WithSteps.lg_area l =
         computed_area height (WithSteps.lg_left l) (WithSteps.lg_right l) /\
       WithSteps.lg_area l <= WithSteps.lg_maxSoFar l /\
       WithSteps.lg_maxSoFar l <= snd (maxAreaWithSteps height)).
Proof.
  intros height out n. unfold out, maxAreaWithSteps. simpl.
  destruct (WithStepsFacts.run_counted height)
    as ((Hstep & Hnum & Hl & Hr & Hord & Hcnt & Hin) & Hg).
  unfold WithSteps.guard in Hg. apply Z.ltb_ge in Hg.
  assert (Hlen : length (WithSteps.steps (WithSteps.st_out
                   (WithSteps.run height))) = n).
  { unfold n. destruct height as [|x rest]; [reflexivity|].
    assert (Hne : x :: rest <> []) by discriminate.
    specialize (Hord Hne). specialize (Hcnt Hne). lia. }
  split; [|split; [exact Hlen|split; [now rewrite <- Hlen|exact Hin]]].
  unfold WithSteps.run. apply while_inv.
  - intros s Hs _. now apply WithStepsFacts.shape_body.
  - reflexivity.
Qed.

Lemma maxAreaWithSteps_output_witness :
  WithSteps.lg_maxSoFar (WithSteps.mkStep 1 0 1 2 1 2 1 2 2 false) <=
  snd (maxAreaWithSteps [1; 2; 1]).
Proof.
  destruct (maxAreaWithSteps_output [1; 2; 1]) as (_ & _ & _ & Hin).
  apply (Hin (WithSteps.mkStep 1 0 1 2 1 2 1 2 2 false)).
  vm_compute. left. reflexivity.
Defined.

(** ** The other queries *)

Module SqlVariantsFacts.
Import Sql SqlFacts SqlVariants.

Lemma second_largest_unique :
  forall Employee v v',
    second_largest Employee v -> second_largest Employee v' -> v = v'.
Proof.
  intros t v v' (Hv & m & Hm & Hlt & Hall) (Hv' & m' & Hm' & Hlt' & Hall').
  destruct (Hall m' Hm') as [E|Hle]; destruct (Hall' m Hm) as [E'|Hle'];
    try lia.
  assert (m = m') by lia. subst m'.
  destruct (Hall v' Hv'), (Hall' v Hv); lia.
Qed.

Lemma second_largest_two_distinct :
  forall Employee v, second_largest Employee v -> two_distinct Employee.
Proof.
  intros t v (Hv & m & Hm & Hlt & _). exists v, m. repeat split; try assumption.
  lia.
Qed.

Lemma SecondHighestSalary_is :
  forall Employee v,
    second_largest Employee v -> SecondHighestSalary Employee = Some v.
Proof.
  intros t v Hv.
  destruct (SecondHighestSalary_cases t) as [[_ Hno]|(w & E & Hw & _)].
  - elim Hno. eapply second_largest_two_distinct; eassumption.
  - rewrite E. f_equal. eapply second_largest_unique; eassumption.
Qed.

Lemma SecondHighestSalary_none :
  forall Employee,
    (forall v, ~ second_largest Employee v) ->
    SecondHighestSalary Employee = None.
Proof.
  intros t Hno.
  destruct (SecondHighestSalary_cases t) as [[E _]|(w & _ & Hw & _)];
    [exact E|]. elim (Hno w Hw).
Qed.

(** *** Solution 3 *)

Lemma fold_max_spec :
  forall rest x,
    In (fold_left Z.max rest x) (x :: rest) /\
    forall y, In y (x :: rest) -> y <= fold_left Z.max rest x.
Proof.
  induction rest as [|z rest IH]; intros x; simpl.
  - split; [now left|]. intros y [->|[]]. lia.
  - destruct (IH (Z.max x z)) as [Hin Hub]. simpl in Hin, Hub. split.
    + destruct Hin as [E|Hin]; [|tauto].
      rewrite <- E. destruct (Z.max_spec x z) as [[_ ->]|[_ ->]]; tauto.
    + intros y [->|[->|Hy]].
      * specialize (Hub (Z.max y z) (or_introl eq_refl)). lia.
      * specialize (Hub (Z.max x y) (or_introl eq_refl)). lia.
      * apply Hub. now right.
Qed.

Lemma max_agg_some :
  forall rows m, max_agg rows = Some m ->
    In m rows /\ forall y, In y rows -> y <= m.
Proof.
  intros [|x rest] m E; [discriminate|]. simpl in E. injection E as <-.
  apply fold_max_spec.
Qed.

Lemma max_agg_none : forall rows, max_agg rows = None -> rows = [].
Proof. intros [|x rest] E; [reflexivity|discriminate]. Qed.

Lemma Solution3_cases :
  forall Employee,
    (Solution3 Employee = None /\ forall v, ~ second_largest Employee v) \/
    (exists v, Solution3 Employee = Some v /\ second_largest Employee v).
Proof.
  intros t. unfold Solution3.
  destruct (max_agg t) as [m|] eqn:Em.
  - destruct (max_agg_some t m Em) as [Hm Hub].
    destruct (max_agg (filter (fun salary => salary <? m) t)) as [v|] eqn:Ev.
    + right. exists v. split; [reflexivity|].
      destruct (max_agg_some _ v Ev) as [Hv Hvub].
      apply filter_In in Hv. destruct Hv as [Hv Hlt]. apply Z.ltb_lt in Hlt.
      split; [exact Hv|]. exists m. repeat split; try assumption.
      intros x Hx. destruct (Z.eq_dec x m) as [->|Hne]; [now left|right].
      apply Hvub. apply filter_In. split; [exact Hx|].
      apply Z.ltb_lt. specialize (Hub x Hx). lia.
    + left. split; [reflexivity|].
      apply max_agg_none in Ev.
      intros v (Hv & top & Htop & Hlt & _).
      assert (Hin : In v (filter (fun salary => salary <? m) t)).
      { apply filter_In. split; [exact Hv|]. apply Z.ltb_lt.
        specialize (Hub top Htop). lia. }
      rewrite Ev in Hin. exact Hin.
  - left. split; [reflexivity|].
    apply max_agg_none in Em. subst t. intros v (Hv & _). exact Hv.
Qed.

(** *** Solution 2 *)

Lemma rank2_salaries :
  forall Employee,
    map fst (rank2_rows Employee) =
    filter (fun salary => dense_rank Employee salary =? 2) Employee.
Proof.
  intros t. unfold rank2_rows. generalize (dense_rank t). intros f.
  induction t as [|x t IH]; simpl; [reflexivity|].
  destruct (f x =? 2); simpl; now rewrite IH.
Qed.

Lemma distinct_single :
  forall rows,
    length (distinct rows) = 1%nat <->
    exists m, In m rows /\ forall y, In y rows -> y = m.
Proof.
  intros rows. unfold distinct.
  pose proof (NoDup_nodup Z.eq_dec rows) as Hnd.
  pose proof (nodup_In Z.eq_dec rows) as Hin.
  destruct (nodup Z.eq_dec rows) as [|a [|b rest]]; simpl in *; split.
  - discriminate.
  - intros (m & Hm & _). now apply Hin in Hm.
  - intros _. exists a. split; [apply Hin; now left|].
    intros y Hy. apply Hin in Hy. destruct Hy as [<-|[]]. reflexivity.
  - reflexivity.
  - discriminate.
  - intros (m & _ & Hall). exfalso.
    assert (a = m) by (apply Hall, Hin; now left).
    assert (b = m) by (apply Hall, Hin; right; now left).
    subst. inversion Hnd as [|? ? Hnotin _]. apply Hnotin. now left.
Qed.

Lemma dense_rank_2 :
  forall Employee v, In v Employee ->
    (dense_rank Employee v = 2 <-> second_largest Employee v).
Proof.
  intros t v Hv. unfold dense_rank.
  assert (Hone : 1 + Z.of_nat (length (distinct
                   (filter (fun other => v <? other) t))) = 2 <->
                 length (distinct (filter (fun other => v <? other) t)) = 1%nat)
    by lia.
  rewrite Hone, distinct_single. split.
  - intros (m & Hm & Hall). apply filter_In in Hm. destruct Hm as [Hm Hlt].
    apply Z.ltb_lt in Hlt. split; [exact Hv|]. exists m.
    repeat split; try assumption.
    intros x Hx. destruct (Z.lt_ge_cases v x) as [Hgt|Hle]; [left|right; lia].
    apply Hall, filter_In. split; [exact Hx|now apply Z.ltb_lt].
  - intros (_ & m & Hm & Hlt & Hall). exists m. split.
    + apply filter_In. split; [exact Hm|now apply Z.ltb_lt].
    + intros y Hy. apply filter_In in Hy. destruct Hy as [Hy Hgt].
      apply Z.ltb_lt in Hgt. destruct (Hall y Hy); lia.
Qed.

End SqlVariantsFacts.

Module SqlRowFacts.
Import Sql SqlFacts SqlVariants SqlVariantsFacts.

Lemma count_occ_insert_desc :
  forall x rows y,
    count_occ Z.eq_dec (insert_desc x rows) y =
    count_occ Z.eq_dec (x :: rows) y.
Proof.
  intros x rows y. induction rows as [|z rest IH]; [reflexivity|].
  simpl insert_desc. destruct (z <? x); [reflexivity|].
  simpl in *. rewrite IH.
  destruct (Z.eq_dec z y), (Z.eq_dec x y); reflexivity.
Qed.

Lemma count_occ_order_by_desc :
  forall rows y,
    count_occ Z.eq_dec (order_by_desc rows) y = count_occ Z.eq_dec rows y.
Proof.
  intros rows y. induction rows as [|x rest IH]; [reflexivity|].
  simpl order_by_desc. rewrite count_occ_insert_desc. simpl. now rewrite IH.
Qed.

Lemma length_insert_desc :
  forall x rows, length (insert_desc x rows) = S (length rows).
Proof.
  intros x rows. induction rows as [|z rest IH]; [reflexivity|].
  simpl. destruct (z <? x); simpl; [reflexivity|now rewrite IH].
Qed.

Lemma length_order_by_desc :
  forall rows, length (order_by_desc rows) = length rows.
Proof.
  induction rows as [|x rest IH]; [reflexivity|].
  simpl. now rewrite length_insert_desc, IH.
Qed.

(** The ordered table begins with its two highest rows. *)
Lemma ordered_head :
  forall Employee a b rest,
    order_by_desc Employee = a :: b :: rest ->
    In a Employee /\ In b Employee /\ b <= a /\
    (forall x, In x Employee -> x <= a) /\
    (forall x, In x Employee -> x = a \/ x <= b \/
               (2 <= count_occ Z.eq_dec Employee a)%nat).
Proof.
  intros t a b rest E.
  pose proof (order_by_desc_descending t) as Hs. unfold descending in Hs.
  pose proof (fun x => In_order_by_desc x t) as Hin.
  pose proof (count_occ_order_by_desc t) as Hc.
  rewrite E in *.
  inversion Hs as [|? ? Hs' Ha]; subst.
  inversion Hs' as [|? ? _ Hb]; subst.
  rewrite Forall_forall in Ha, Hb.
  assert (Hba : b <= a) by (apply Ha; now left).
  split; [apply Hin; now left|]. split; [apply Hin; right; now left|].
  split; [exact Hba|]. split.
  - intros x Hx. apply Hin in Hx. destruct Hx as [<-|Hx]; [lia|now apply Ha].
  - intros x Hx. apply Hin in Hx. destruct Hx as [<-|[<-|Hx]].
    + now left.
    + right. left. lia.
    + right. left. now apply Hb.
Qed.

Lemma OriginalQuery_second_row :
  forall Employee,
    OriginalQuery Employee = nth_error (order_by_desc Employee) 1.
Proof.
  intros t. unfold OriginalQuery, scalar, limit, offset.
  destruct (order_by_desc t) as [|a [|b rest]]; reflexivity.
Qed.

Lemma combine_seq_snd :
  forall (rows : list Z) start,
    map snd (combine rows (seq start (length rows))) =
    seq start (length rows).
Proof.
  induction rows as [|x rest IH]; intros start; simpl; [reflexivity|].
  now rewrite IH.
Qed.

Lemma no_row_numbered_2 :
  forall (rows : list Z) start, (3 <= start)%nat ->
    filter (fun row : Z * nat => Nat.eqb (snd row) 2)
      (combine rows (seq start (length rows))) = [].
Proof.
  induction rows as [|x rest IH]; intros start Hs; simpl; [reflexivity|].
  destruct (Nat.eqb_spec start 2) as [->|_]; [lia|].
  apply IH. lia.
Qed.

(** [DISTINCT] removes none of the numbered rows. *)
Lemma numbered_rows_all :
  forall Employee,
    numbered_rows Employee =
    combine (order_by_desc Employee)
      (seq 1 (length (order_by_desc Employee))).
Proof.
  intros t. unfold numbered_rows. apply nodup_fixed_point.
  apply (NoDup_map_inv snd). rewrite combine_seq_snd. apply seq_NoDup.
Qed.

(** With its highest salary held by two rows, the table has that salary
    in its second row too. *)
Lemma duplicated_top_second_row :
  forall Employee top,
    (forall x, In x Employee -> x <= top) ->
    (2 <= count_occ Z.eq_dec Employee top)%nat ->
    nth_error (order_by_desc Employee) 1 = Some top /\
    SecondHighestSalary Employee <> Some top.
Proof.
  intros t top Hub Hcnt.
  pose proof (ordered_head t) as Hhead.
  pose proof (count_occ_order_by_desc t) as Hc.
  split.
  - destruct (order_by_desc t) as [|a [|b rest]] eqn:E.
    + specialize (Hc top). simpl in Hc. lia.
    + specialize (Hc top). simpl in Hc. destruct (Z.eq_dec a top); lia.
    + destruct (Hhead a b rest eq_refl) as (Ha & Hb & Hba & Hmax & _).
      assert (Htop : In top t)
        by (apply (count_occ_In Z.eq_dec); lia).
      assert (a = top)
        by (specialize (Hub a Ha); specialize (Hmax top Htop); lia).
      subst a. simpl. f_equal.
      specialize (Hc top). simpl in Hc.
      destruct (Z.eq_dec top top) as [_|Hne]; [|congruence].
      destruct (Z.eq_dec b top) as [Eb|Hne]; [exact Eb|].
      assert (Hrest : In top rest) by (apply (count_occ_In Z.eq_dec); lia).
      pose proof (order_by_desc_descending t) as Hs. unfold descending in Hs.
      rewrite E in Hs. inversion Hs as [|? ? Hs' _]; subst.
      inversion Hs' as [|? ? _ Hbr]; subst.
      rewrite Forall_forall in Hbr. specialize (Hbr top Hrest). lia.
  - intros E.
    destruct (SecondHighestSalary_cases t) as [[E' _]|(v & E' & Hv & _)];
      rewrite E' in E; [discriminate|].
    injection E as ->. destruct Hv as (_ & m & Hm & Hlt & _).
    specialize (Hub m Hm). lia.
Qed.

End SqlRowFacts.

Section SqlResults.
Import Sql SqlFacts SqlVariants SqlVariantsFacts SqlRowFacts.

(** X6. Solution 3, [MAX(salary)] below the overall [MAX(salary)],
    returns on every table what the [DISTINCT] query returns. *)
Theorem Solution3_eq_SecondHighestSalary :
  forall Employee, Solution3 Employee = SecondHighestSalary Employee.
Proof.
  intros t. destruct (Solution3_cases t) as [[E Hno]|(v & E & Hv)]; rewrite E.
  - symmetry. now apply SecondHighestSalary_none.
  - symmetry. now apply SecondHighestSalary_is.
Qed.

(** X7. Solution 2, the rows of [DENSE_RANK] 2, returns on every table
    what the [DISTINCT] query returns, whichever of the rows of rank 2
    [LIMIT 1] keeps: they all hold that salary. *)
Theorem Solution2_eq_SecondHighestSalary :
  forall Employee,
    Solution2 Employee = SecondHighestSalary Employee /\
    (forall row, In row (rank2_rows Employee) ->
       SecondHighestSalary Employee = Some (fst row)).
Proof.
  intros t.
  assert (Hrows : forall v, In v (map fst (rank2_rows t)) ->
                    SecondHighestSalary t = Some v).
  { intros v Hv. rewrite rank2_salaries in Hv. apply filter_In in Hv.
    destruct Hv as [Hv Hr]. apply Z.eqb_eq in Hr.
    apply SecondHighestSalary_is. now apply dense_rank_2. }
  split.
  - unfold Solution2, scalar, limit.
    destruct (map fst (rank2_rows t)) as [|v rest] eqn:E; simpl.
    + symmetry. apply SecondHighestSalary_none. intros v Hv.
      assert (Hin : In v (map fst (rank2_rows t))).
      { rewrite rank2_salaries. apply filter_In.
        split; [apply Hv|]. apply Z.eqb_eq.
        apply dense_rank_2; [apply Hv|exact Hv]. }
      rewrite E in Hin. exact Hin.
    + symmetry. apply Hrows. now left.
  - intros row Hrow. apply Hrows. now apply in_map.
Qed.

Lemma Solution2_eq_SecondHighestSalary_witness :
  SecondHighestSalary [300; 300; 200; 200; 100] = Some (fst (200, 2)).
Proof.
  apply (proj2 (Solution2_eq_SecondHighestSalary [300; 300; 200; 200; 100])).
  vm_compute. left. reflexivity.
Defined.

(** X8. The original query, without [DISTINCT], returns [NULL] exactly
    on tables of fewer than two rows; when the highest salary is held by
    two rows or more it returns that highest salary, where the [DISTINCT]
    query does not. *)
Theorem OriginalQuery_duplicated_top :
  forall Employee,
    (OriginalQuery Employee = None <-> (length Employee < 2)%nat) /\
    (forall top,
       (forall x, In x Employee -> x <= top) ->
       (2 <= count_occ Z.eq_dec Employee top)%nat ->
       OriginalQuery Employee = Some top /\
       SecondHighestSalary Employee <> Some top).
Proof.
  intros t. rewrite OriginalQuery_second_row.
  pose proof (length_order_by_desc t) as Hlen.
  split; [|apply duplicated_top_second_row].
  destruct (order_by_desc t) as [|a [|b rest]]; simpl in *;
    split; intros H; try reflexivity; try discriminate; lia.
Qed.

Lemma OriginalQuery_duplicated_top_witness :
  OriginalQuery [300; 300] = Some 300 /\
  SecondHighestSalary [300; 300] <> Some 300.
Proof.
  apply (proj2 (OriginalQuery_duplicated_top [300; 300]) 300).
  - intros x [<-|[<-|[]]]; lia.
  - vm_compute. lia.
Defined.

(** X9. The [DISTINCT] changes the result of the original query exactly
    on the tables whose highest salary is held by two rows or more. *)
Theorem OriginalQuery_eq_fixed_iff :
  forall Employee,
    OriginalQuery Employee = SecondHighestSalary Employee <->
    ~ top_duplicated Employee.
Proof.
  intros t. split.
  - intros E (top & Hub & Hcnt). rewrite OriginalQuery_second_row in E.
    destruct (duplicated_top_second_row t top Hub Hcnt) as [E1 E2].
    congruence.
  - intros Hno. rewrite OriginalQuery_second_row.
    pose proof (ordered_head t) as Hhead.
    pose proof (fun x => In_order_by_desc x t) as Hin.
    destruct (order_by_desc t) as [|a [|b rest]] eqn:E; simpl.
    + symmetry. apply SecondHighestSalary_none.
      intros v (Hv & _). now apply Hin in Hv.
    + symmetry. apply SecondHighestSalary_none.
      intros v (Hv & m & Hm & Hlt & _). apply Hin in Hv, Hm.
      simpl in Hv, Hm. lia.
    + destruct (Hhead a b rest eq_refl) as (Ha & Hb & Hba & Hmax & Hall).
      symmetry. apply SecondHighestSalary_is.
      assert (Hlt : b < a).
      { destruct (Z.eq_dec a b) as [->|Hne]; [|lia].
        elim Hno. exists b. split; [exact Hmax|].
        rewrite <- (count_occ_order_by_desc t), E. simpl.
        destruct (Z.eq_dec b b); [lia|congruence]. }
      split; [exact Hb|]. exists a. repeat split; try assumption.
      intros x Hx. destruct (Hall x Hx) as [->|[Hle|Hdup]];
        [now left|now right|].
      elim Hno. exists a. split; assumption.
Qed.

Lemma OriginalQuery_eq_fixed_iff_witness :
  OriginalQuery [300; 200; 200] = SecondHighestSalary [300; 200; 200].
Proof.
  apply (proj2 (OriginalQuery_eq_fixed_iff [300; 200; 200])).
  intros (top & Hub & Hcnt).
  assert (300 <= top) by (apply Hub; now left).
  cbn [count_occ] in Hcnt.
  destruct (Z.eq_dec 300 top), (Z.eq_dec 200 top); lia.
Defined.

(** X10. Solution 4 numbers the rows before [DISTINCT] applies, so the
    duplicates stay: at most one row passes [rn = 2], and on every table
    the query returns what the original query returns, the salary of the
    second row in descending order; on the table of test case 2, two
    rows of salary 300, that is 300. *)
Theorem Solution4_eq_OriginalQuery :
  forall Employee,
    Solution4 Employee = OriginalQuery Employee /\
    (length (filter (fun row : Z * nat => Nat.eqb (snd row) 2)
               (numbered_rows Employee)) <= 1)%nat /\
    Solution4 [300; 300] = Some 300.
Proof.
  intros t. rewrite <- and_assoc. split; [|vm_compute; reflexivity].
  rewrite OriginalQuery_second_row.
  unfold Solution4. rewrite numbered_rows_all.
  destruct (order_by_desc t) as [|a [|b rest]]; simpl;
    try (split; [reflexivity|lia]).
  rewrite no_row_numbered_2 by lia. simpl. split; [reflexivity|lia].
Qed.

(** X11. The [DISTINCT] query depends on the set of salaries only: two
    tables with the same salary values, in any order and with any
    number of duplicates, give the same result. *)
Theorem SecondHighestSalary_same_values :
  forall Employee Employee',
    (forall x, In x Employee <-> In x Employee') ->
    SecondHighestSalary Employee = SecondHighestSalary Employee'.
Proof.
  intros t t' Hsame.
  assert (Hsl : forall v, second_largest t v -> second_largest t' v).
  { intros v (Hv & m & Hm & Hlt & Hall). split; [now apply Hsame|].
    exists m. repeat split; try assumption; [now apply Hsame|].
    intros x Hx. apply Hall. now apply Hsame. }
  destruct (SecondHighestSalary_cases t) as [[E Hno]|(v & E & Hv & _)];
    rewrite E; symmetry.
  - apply SecondHighestSalary_none. intros v (Hv & m & Hm & Hlt & _).
    apply Hno. exists v, m. repeat split; try (now apply Hsame). lia.
  - apply SecondHighestSalary_is. now apply Hsl.
Qed.

Lemma SecondHighestSalary_same_values_witness :
  SecondHighestSalary [200; 300; 200] = SecondHighestSalary [300; 200].
Proof.
  apply SecondHighestSalary_same_values.
  intros x. simpl. tauto.
Defined.

End SqlResults.

(** ** Signed zeros and [NaN] checks *)

Module FloatFacts.
Import Equality SignedZero.

Lemma is_zero_cases :
  forall x : number, is_zero x = true -> x = zero \/ x = neg_zero.
Proof.
  intros x H. unfold is_zero in H. rewrite FloatAxioms.eqb_spec in H.
  change (Prim2SF zero) with (S754_zero false) in H.
  rewrite <- (SF2Prim_Prim2SF x).
  destruct (Prim2SF x) as [[|]|[|]| |[|] m e]; try discriminate H.
  - right. reflexivity.
  - left. reflexivity.
Qed.

Lemma zero_neq_neg_zero : zero <> neg_zero.
Proof. intros E. apply (f_equal Prim2SF) in E. discriminate E. Qed.

Lemma eqb_zero_sign :
  forall x : number, PrimFloat.eqb x neg_zero = PrimFloat.eqb x zero.
Proof.
  intros x. rewrite !FloatAxioms.eqb_spec.
  change (Prim2SF neg_zero) with (S754_zero true).
  change (Prim2SF zero) with (S754_zero false).
  destruct (Prim2SF x) as [[|]|[|]| |[|] m e]; reflexivity.
Qed.

Lemma Object_is_nonzero :
  forall x : number, is_zero x = false ->
    Object_is x neg_zero = false /\ Object_is x zero = false.
Proof.
  intros x H. unfold Object_is. rewrite H.
  change (is_nan neg_zero) with false. change (is_nan zero) with false.
  rewrite andb_false_r. simpl. rewrite eqb_zero_sign. split; exact H.
Qed.

Lemma eqb_nan_r : forall x : number, PrimFloat.eqb x nan = false.
Proof.
  intros x. rewrite FloatAxioms.eqb_spec.
  change (Prim2SF nan) with S754_nan.
  destruct (Prim2SF x) as [[|]|[|]| |[|] m e]; reflexivity.
Qed.

Lemma is_nan_eq : forall x : number, is_nan x = true -> x = nan.
Proof.
  intros x H. unfold is_nan in H. rewrite FloatAxioms.eqb_spec in H.
  rewrite <- (SF2Prim_Prim2SF x).
  destruct (Prim2SF x) as [[|]|[|]| |[|] m e]; try discriminate H;
    try reflexivity;
    unfold SFeqb, SFcompare in H;
    rewrite Z.compare_refl, Pos.compare_cont_refl in H; discriminate H.
Qed.

End FloatFacts.

Section FloatResults.
Import Equality SignedZero FloatFacts.

(** X12. [getDirection] tells the two zeros apart and nothing else: it
    answers "negative direction" exactly on [-0], "positive direction"
    exactly on [+0], and "non-zero" exactly on the numbers that [===]
    does not find equal to 0, [NaN] and the infinities among them. *)
Theorem getDirection_spec :
  forall value : number,
    (getDirection value = "negative direction"%string <->
       value = neg_zero) /\
    (getDirection value = "positive direction"%string <-> value = zero) /\
    (getDirection value = "non-zero"%string <->
       strict_equals value zero = false).
Proof.
  intros value. destruct (is_zero value) eqn:Hz.
  - destruct (is_zero_cases value Hz) as [-> | ->].
    + repeat split; intros H; try reflexivity; try discriminate H;
        elim (zero_neq_neg_zero H).
    + repeat split; intros H; try reflexivity; try discriminate H;
        elim (zero_neq_neg_zero (eq_sym H)).
  - destruct (Object_is_nonzero value Hz) as [Hn Hp].
    unfold getDirection. rewrite Hn, Hp.
    repeat split; intros H; try discriminate H; try reflexivity;
      try exact Hz; subst value; discriminate Hz.
Qed.

Lemma getDirection_spec_witness :
  getDirection (1 / infinity)%float = "positive direction"%string.
Proof.
  apply (proj2 (proj1 (proj2 (getDirection_spec (1 / infinity)%float)))).
  reflexivity.
Defined.

(** X13. The check [result === NaN] is false whatever [result] is, [NaN]
    included, so its branch never runs; [Object.is(result, NaN)] is true
    exactly when [result] is [NaN], as for [Math.sqrt(-1)]. *)
Theorem NaN_checks :
  forall result : number,
    wrong_NaN_check result = false /\
    Object_is_NaN_check result = is_nan result /\
    Object_is_NaN_check (PrimFloat.sqrt (-1)) = true.
Proof.
  intros result. unfold wrong_NaN_check, Object_is_NaN_check, strict_equals.
  split; [apply eqb_nan_r|]. split; [|reflexivity].
  unfold Object_is, NaN. change (is_nan nan) with true.
  rewrite andb_true_r. destruct (is_nan result); [reflexivity|].
  change (is_zero nan) with false. rewrite andb_false_r. apply eqb_nan_r.
Qed.

(** X15. [Object.is] and [===] give different answers on exactly three
    pairs of numbers: [NaN] with [NaN], [+0] with [-0] and [-0] with
    [+0]; on every other pair they agree. *)
Theorem Object_is_vs_strict_equals :
  forall x y : number,
    Object_is x y <> strict_equals x y <->
    (x = NaN /\ y = NaN) \/
    (x = zero /\ y = neg_zero) \/
    (x = neg_zero /\ y = zero).
Proof.
  intros x y. split.
  - intros H. unfold Object_is, strict_equals in H.
    destruct (is_nan x) eqn:Hx; [destruct (is_nan y) eqn:Hy|]; simpl in H.
    + left. split; now apply is_nan_eq.
    + apply is_nan_eq in Hx. subst x.
      change (is_zero nan) with false in H. simpl in H. congruence.
    + destruct (is_zero x) eqn:Zx; [destruct (is_zero y) eqn:Zy|];
        simpl in H; try congruence.
      destruct (is_zero_cases x Zx) as [-> | ->],
               (is_zero_cases y Zy) as [-> | ->]; auto;
        elim H; reflexivity.
  - intros [[-> ->]|[[-> ->]|[-> ->]]]; intros E; discriminate E.
Qed.

Lemma Object_is_vs_strict_equals_witness :
  Object_is zero neg_zero <> strict_equals zero neg_zero.
Proof.
  apply (proj2 (Object_is_vs_strict_equals zero neg_zero)).
  right. left. split; reflexivity.
Defined.

End FloatResults.

(** ** The script's own tests *)

(** X14. Every entry of the script's [testCases] table passes, and the
    five edge cases return the values their comments announce. *)
Theorem script_tests_pass :
  forallb Tests.passed Tests.testCases = true /\
  forallb Tests.passed Tests.edgeCases = true.
Proof. split; vm_compute; reflexivity. Qed.
